(** * File operations of the GitHub server: a shallow embedding

    This development embeds [src/github/operations/files.ts] and proves the
    properties its specification states about it: the entity decoder, the
    content resolver, the single-file writer and the multi-file push.

    Conventions of the embedding.
    - A JavaScript string is represented by the bytes of its UTF-8 encoding
      (a Rocq [string]).  Every pattern of the module is made of ASCII
      literals, of classes of ASCII characters, of a negated class and of a
      dot with the [s] flag, so matching byte by byte and matching code unit
      by code unit select the same text of a well-formed string.
    - [undefined] for an optional argument is [None].
    - A JavaScript object is an association list in insertion order.
    - An [async] function is a computation over a world that records every
      network call in order, and that either returns or throws. *)

From Stdlib Require Import String Ascii List Bool Arith NArith Lia.
From Equations Require Import Equations.
Import ListNotations.
Open Scope string_scope.

(** ** Strings *)

(** [str.slice(n)] *)
Fixpoint string_drop (n : nat) (s : string) : string :=
  match n, s with
  | 0, _ => s
  | S _, EmptyString => EmptyString
  | S k, String _ t => string_drop k t
  end.

(** Truthiness of a string: only the empty string is falsy. *)
Definition truthy_string (s : string) : bool :=
  match s with
  | EmptyString => false
  | String _ _ => true
  end.

(** Truthiness of an optional string: [undefined] and the empty string are falsy. *)
Definition truthy (o : option string) : bool :=
  match o with
  | Some s => truthy_string s
  | None => false
  end.

(** ** The entity decoder *)

(** The character class [[a-zA-Z0-9#]]. *)
Definition entity_class (c : ascii) : bool :=
  let n := nat_of_ascii c in
  (((97 <=? n) && (n <=? 122)) || ((65 <=? n) && (n <=? 90))
   || ((48 <=? n) && (n <=? 57)) || (n =? 35))%nat.

(** Remainder of the pattern after the first class character:
    [[a-zA-Z0-9#]*;], greedy.  A class character is consumed first; when what
    follows then fails, the matcher gives the character back and tries the
    semicolon here.  The result is the text matched. *)
Fixpoint entity_tail (s : string) : option string :=
  match s with
  | EmptyString => None
  | String c t =>
      let stop := if (c =? ";")%char then Some ";" else None in
      if entity_class c
      then match entity_tail t with
           | Some m => Some (String c m)
           | None => stop
           end
      else stop
  end.

(** The pattern [/&[a-zA-Z0-9#]+;/] tried at the start of [s]: the text it
    matches there, if it does. *)
Definition entity_match (s : string) : option string :=
  match s with
  | String "&" (String c t) =>
      if entity_class c
      then match entity_tail t with
           | Some m => Some (String "&" (String c m))
           | None => None
           end
      else None
  | _ => None
  end.

Definition double_quote : ascii := ascii_of_nat 34.

(** The table [entities] of [decodeHTMLEntities]. *)
Definition entities : list (string * string) :=
  [ ("&quot;", String double_quote EmptyString);
    ("&amp;", "&");
    ("&apos;", "'");
    ("&lt;", "<");
    ("&gt;", ">");
    ("&#x27;", "'") ].

(** Property lookup [entities[key]]. *)
Fixpoint lookup {A : Type} (key : string) (props : list (string * A)) : option A :=
  match props with
  | [] => None
  | (k, v) :: rest => if (k =? key)%string then Some v else lookup key rest
  end.

(** The callback [(match) => entities[match] || match]. *)
Definition entity_replacement (m : string) : string :=
  match lookup m entities with
  | Some v => if truthy_string v then v else m
  | None => m
  end.

Lemma string_drop_length (n : nat) (s : string) :
  String.length (string_drop n s) <= String.length s.
Proof.
  revert s; induction n as [|n IH]; intros [|c t]; simpl; auto.
Qed.

(** [str.replace(/&[a-zA-Z0-9#]+;/g, callback)]: the pattern is tried at each
    position from the left; after a match the scan resumes at the end of the
    matched text, otherwise the character is kept and the scan moves on by
    one. *)
Equations? replace_entities (s : string) : string by wf (String.length s) lt :=
  replace_entities EmptyString := EmptyString;
  replace_entities (String c t) with entity_match (String c t) => {
    | Some m := entity_replacement m ++ replace_entities (string_drop (String.length m - 1) t);
    | None := String c (replace_entities t) }.
Proof.
  pose proof (string_drop_length (String.length m - 1) t). simpl. lia.
Qed.

Definition decodeHTMLEntities (str : string) : string := replace_entities str.

(** ** The code-block pattern [/<code[^>]*?>(.*?)<\/code>/s] *)

(** [(.*?)<\/code>], lazy, the dot matching every character ([s] flag): the
    closing tag is tried first, and one more character is taken only when it
    is not there.  The result is the text matched and the captured group. *)
Fixpoint code_body (s : string) : option (string * string) :=
  if String.prefix "</code>" s then Some ("</code>", EmptyString)
  else match s with
       | EmptyString => None
       | String c t =>
           match code_body t with
           | Some (m, g) => Some (String c m, String c g)
           | None => None
           end
       end.

(** [[^>]*?>(.*?)<\/code>], lazy: [>] and the rest are tried first, and one
    more character other than [>] is taken only when they fail. *)
Fixpoint code_open (s : string) : option (string * string) :=
  match s with
  | EmptyString => None
  | String c t =>
      let more :=
        if (c =? ">")%char then None
        else match code_open t with
             | Some (m, g) => Some (String c m, g)
             | None => None
             end in
      if (c =? ">")%char
      then match code_body t with
           | Some (m, g) => Some (String c m, g)
           | None => more
           end
      else more
  end.

(** The pattern tried at the start of [s]: [(match[0], match[1])]. *)
Definition code_match (s : string) : option (string * string) :=
  if String.prefix "<code" s
  then match code_open (string_drop 5 s) with
       | Some (m, g) => Some ("<code" ++ m, g)
       | None => None
       end
  else None.

(** [html.match(codeBlockRegex)], the pattern having no [g] flag: the match
    at the leftmost position where the pattern matches, as
    [(index, match[0], match[1])]. *)
Fixpoint String_match (html : string) : option (nat * string * string) :=
  match code_match html with
  | Some (m, g) => Some (0, m, g)
  | None =>
      match html with
      | EmptyString => None
      | String _ t =>
          match String_match t with
          | Some (i, m, g) => Some (S i, m, g)
          | None => None
          end
      end
  end.

(** The embedded code regions of a document, in order: the captured text of
    each successive match of the pattern, the search resuming where the
    previous match ended. *)
Equations? code_regions (html : string) : list string by wf (String.length html) lt :=
  code_regions EmptyString := [];
  code_regions (String c t) with String_match (String c t) => {
    | Some (i, m, g) := g :: code_regions (string_drop (i + String.length m - 1) t);
    | None := [] }.
Proof.
  pose proof (string_drop_length (i + String.length m - 1) t). simpl. lia.
Qed.

(** ** Base64 *)

Definition base64_alphabet : string :=
  "ABCDEFGHIJKLMNOPQRSTUVWXYZabcdefghijklmnopqrstuvwxyz0123456789+/".

Definition base64_digit (n : nat) : ascii :=
  match String.get n base64_alphabet with
  | Some c => c
  | None => "="%char
  end.

(** [Buffer.from(str).toString("base64")]: the bytes of the string (its UTF-8
    encoding) in groups of three, each written as four digits, the last
    group padded with [=]. *)
Fixpoint base64_encode (bytes : string) : string :=
  match bytes with
  | EmptyString => EmptyString
  | String a EmptyString =>
      let x := nat_of_ascii a in
      String (base64_digit (x / 4)) (String (base64_digit (x mod 4 * 16)) "==")
  | String a (String b EmptyString) =>
      let x := nat_of_ascii a in
      let y := nat_of_ascii b in
      String (base64_digit (x / 4))
        (String (base64_digit (x mod 4 * 16 + y / 16))
           (String (base64_digit (y mod 16 * 4)) "="))
  | String a (String b (String c rest)) =>
      let x := nat_of_ascii a in
      let y := nat_of_ascii b in
      let z := nat_of_ascii c in
      String (base64_digit (x / 4))
        (String (base64_digit (x mod 4 * 16 + y / 16))
           (String (base64_digit (y mod 16 * 4 + z / 64))
              (String (base64_digit (z mod 64)) (base64_encode rest))))
  end.

(** ** Values, calls and the world *)

(** JavaScript values as they appear in request bodies and in parsed
    responses.  An object lists its properties in insertion order. *)
#[local] Set Warnings "-register-all".

Inductive JsVal : Type :=
| JsUndefined
| JsNull
| JsBool (b : bool)
| JsNumber (n : N)
| JsString (s : string)
| JsArray (items : list JsVal)
| JsObject (props : list (string * JsVal)).

Inductive Method : Type := GET | POST | PUT | PATCH.

(** The second argument of [githubRequest], [{method?, body?}]. *)
Record RequestOptions : Type := mkOptions {
  method : option Method;
  body : option JsVal
}.

(** [githubRequest(url)]: no options. *)
Definition no_options : RequestOptions := mkOptions None None.

(** A network call: a request to the hosting API through the transport
    client, or the fetch of a document. *)
Inductive Call : Type :=
| GithubCall (url : string) (options : RequestOptions)
| FetchCall (url : string).

Inductive Error : Type :=
| JsError (message : string)
| ZodError (schema : string)
| TransportError (status : nat) (message : string).

Inductive Outcome (A : Type) : Type :=
| Returned (a : A)
| Thrown (e : Error).
Arguments Returned {A} a.
Arguments Thrown {A} e.

(** What a computation has done so far: the network calls it issued, oldest
    first, and the lines it wrote with [console.error]. *)
Record World : Type := mkWorld {
  calls : list Call;
  console : list string
}.

Definition Async (A : Type) : Type := World -> Outcome A * World.

Definition ret {A : Type} (a : A) : Async A := fun w => (Returned a, w).

Definition throw {A : Type} (e : Error) : Async A := fun w => (Thrown e, w).

(** [await m] followed by [k]: a throw of [m] ends the computation. *)
Definition bind {A B : Type} (m : Async A) (k : A -> Async B) : Async B :=
  fun w =>
    match m w with
    | (Returned a, w') => k a w'
    | (Thrown e, w') => (Thrown e, w')
    end.

(** [try { m } catch (error) { handler }] *)
Definition try_catch {A : Type} (m : Async A) (handler : Error -> Async A) : Async A :=
  fun w =>
    match m w with
    | (Returned a, w') => (Returned a, w')
    | (Thrown e, w') => handler e w'
    end.

Definition console_error (line : string) : Async unit :=
  fun w => (Returned tt, mkWorld (calls w) (console w ++ [line])).

Notation "x <- m ;; k" := (bind m (fun x => k))
  (at level 61, m at next level, right associativity).

(** [Schema.parse(value)]: the parsed value, or a [ZodError]. *)
Definition parse {A : Type} (schema : JsVal -> option A) (name : string) (value : JsVal) : Async A :=
  match schema value with
  | Some a => ret a
  | None => throw (ZodError name)
  end.

(** ** Response types *)

(** Modelled from the spec: the single-file record of [common/types], which
    is not part of the sources at hand; it keeps the fields the
    specification names, [{sha, content(base64), ...}], and the path. *)
Record GitHubFileContent : Type := mkFile {
  file_sha : string;
  file_content : string;
  file_path : string
}.

(** Modelled from the spec: an entry of a directory listing of
    [common/types]. *)
Record GitHubDirectoryContent : Type := mkEntry {
  entry_sha : string;
  entry_path : string
}.

(** Modelled from the spec: the type of [GitHubContentSchema] of
    [common/types], a single-file record or an array (a directory listing). *)
Inductive GitHubContent : Type :=
| ContentFile (file : GitHubFileContent)
| ContentDirectory (entries : list GitHubDirectoryContent).

(** Modelled from the spec: the tree descriptor [{sha, url}] of
    [common/types]. *)
Record GitHubTree : Type := mkTree {
  tree_sha : string;
  tree_url : string
}.

(** Modelled from the spec: the commit descriptor of [common/types], with
    its [sha], tree, parents and message. *)
Record GitHubCommit : Type := mkCommit {
  commit_sha : string;
  commit_tree : string;
  commit_parents : list string;
  commit_message : string
}.

(** Modelled from the spec: the branch reference [{ref, object: {sha}}] of
    [common/types]. *)
Record GitHubReference : Type := mkReference {
  ref_name : string;
  object_sha : string
}.

(** [FileOperationSchema] *)
Record FileOperation : Type := mkFileOperation {
  path : string;
  content : string
}.

(** [GitHubCreateUpdateFileResponseSchema], over the type of
    [GitHubAuthorSchema] of [common/types], no field of which is read here. *)
Record WrittenParent : Type := mkParent {
  parent_sha : string;
  parent_url : string;
  parent_html_url : string
}.

Record WrittenCommit (Author : Type) : Type := mkWrittenCommit {
  written_sha : string;
  written_node_id : string;
  written_url : string;
  written_html_url : string;
  written_author : Author;
  written_committer : Author;
  written_message : string;
  written_tree : GitHubTree;
  written_parents : list WrittenParent
}.

(** [content] is nullable. *)
Record GitHubCreateUpdateFileResponse (Author : Type) : Type := mkWritten {
  written_content : option GitHubFileContent;
  written_commit : WrittenCommit Author
}.

(** ** The collaborators

    What the module imports and calls but does not define: the hosting API
    behind the transport client, the web behind [fetch], the schemas of
    [common/types] and the base64 decoder of the runtime. *)
Class Collaborators : Type := {
  (** What a request to the hosting API returns (parsed JSON) or throws (a
      status other than 2xx), given the calls issued before it. *)
  github : list Call -> string -> RequestOptions -> Outcome JsVal;
  (** The text of the document at a URL, or the error of the fetch, given
      the calls issued before it. *)
  web : list Call -> string -> Outcome string;
  (** The schemas, as the partial functions their [parse] computes. *)
  GitHubContentSchema : JsVal -> option GitHubContent;
  GitHubTreeSchema : JsVal -> option GitHubTree;
  GitHubCommitSchema : JsVal -> option GitHubCommit;
  GitHubReferenceSchema : JsVal -> option GitHubReference;
  GitHubAuthor : Type;
  GitHubCreateUpdateFileResponseSchema :
    JsVal -> option (GitHubCreateUpdateFileResponse GitHubAuthor);
  (** [Buffer.from(str, "base64").toString("utf8")] *)
  base64_decode : string -> string
}.

(** ** The operations *)

(** The two refinements of [CreateOrUpdateFileSchema]: the messages of the
    issues they raise on the pair of optional arguments. *)
Definition defined {A : Type} (o : option A) : bool :=
  match o with
  | Some _ => true
  | None => false
  end.

Definition CreateOrUpdateFileSchema_issues (content published_artifact_url : option string)
  : list string :=
  ((if defined content || defined published_artifact_url then []
    else ["Either 'content' or 'published_artifact_url' must be provided"])
   ++ (if negb (defined content && defined published_artifact_url) then []
       else ["Only one of 'content' or 'published_artifact_url' can be provided"]))%list.

Section Operations.

Context {collaborators : Collaborators}.

(** Modelled from the spec: [githubRequest] of [common/utils], the
    transport client.  It performs one request and returns the parsed JSON
    or throws on a status other than 2xx. *)
Definition githubRequest (url : string) (options : RequestOptions) : Async JsVal :=
  fun w =>
    (github (calls w) url options,
     mkWorld (calls w ++ [GithubCall url options]) (console w)).

(** [await fetch(url)] followed by [await response.text()]. *)
Definition fetch_text (url : string) : Async string :=
  fun w => (web (calls w) url, mkWorld (calls w ++ [FetchCall url]) (console w)).

Definition getFileContents (owner repo path : string) (branch : option string)
  : Async GitHubContent :=
  let url := "https://api.github.com/repos/" ++ owner ++ "/" ++ repo ++ "/contents/" ++ path in
  let url :=
    match branch with
    | Some b => if truthy_string b then url ++ "?ref=" ++ b else url
    | None => url
    end in
  response <- githubRequest url no_options ;;
  data <- parse GitHubContentSchema "GitHubContentSchema" response ;;
  ret (match data with
       | ContentFile f =>
           if truthy_string (file_content f)
           then ContentFile (mkFile (file_sha f) (base64_decode (file_content f)) (file_path f))
           else data
       | ContentDirectory _ => data
       end).

(** Lines 134 to 153 of [createOrUpdateFile]: the choice of [fileContent]. *)
Definition resolveContent (content published_artifact_url : option string) : Async string :=
  match content with
  | Some c => ret c
  | None =>
      match published_artifact_url with
      | Some u =>
          html <- fetch_text u ;;
          match String_match html with
          | None =>
              throw (JsError "Could not find a singular <code> block in the published artifact")
          | Some (_, _, group1) => ret (decodeHTMLEntities group1)
          end
      | None =>
          throw (JsError "Either 'content' or 'published_artifact_url' must be provided")
      end
  end.

(** Lines 156 to 166 of [createOrUpdateFile]: the value of [currentSha]
    after the optional read of the existing file. *)
Definition resolveSha (owner repo path branch : string) (sha : option string)
  : Async (option string) :=
  if truthy sha then ret sha
  else
    try_catch
      (existingFile <- getFileContents owner repo path (Some branch) ;;
       ret (match existingFile with
            | ContentFile f => Some (file_sha f)
            | ContentDirectory _ => sha
            end))
      (fun _ =>
         _ <- console_error "Note: File does not exist in branch, will create new file" ;;
         ret sha).

(** The object [{message, content, branch, ...(currentSha ? {sha} : {})}]. *)
Definition write_body (message encodedContent branch : string) (currentSha : option string)
  : JsVal :=
  JsObject
    ([("message", JsString message);
      ("content", JsString encodedContent);
      ("branch", JsString branch)]
     ++ match currentSha with
        | Some s => if truthy_string s then [("sha", JsString s)] else []
        | None => []
        end).

Definition createOrUpdateFile (owner repo path : string)
    (content published_artifact_url : option string)
    (message branch : string) (sha : option string)
  : Async (GitHubCreateUpdateFileResponse GitHubAuthor) :=
  fileContent <- resolveContent content published_artifact_url ;;
  let encodedContent := base64_encode fileContent in
  currentSha <- resolveSha owner repo path branch sha ;;
  let url := "https://api.github.com/repos/" ++ owner ++ "/" ++ repo ++ "/contents/" ++ path in
  let body := write_body message encodedContent branch currentSha in
  response <- githubRequest url (mkOptions (Some PUT) (Some body)) ;;
  parse GitHubCreateUpdateFileResponseSchema "GitHubCreateUpdateFileResponseSchema" response.

(** An absent optional string as a property value. *)
Definition optional_string (o : option string) : JsVal :=
  match o with
  | Some s => JsString s
  | None => JsUndefined
  end.

Definition createTree (owner repo : string) (files : list FileOperation)
    (baseTree : option string) : Async GitHubTree :=
  let tree :=
    map (fun file =>
           JsObject [("path", JsString (path file));
                     ("mode", JsString "100644");
                     ("type", JsString "blob");
                     ("content", JsString (content file))])
        files in
  response <-
    githubRequest ("https://api.github.com/repos/" ++ owner ++ "/" ++ repo ++ "/git/trees")
      (mkOptions (Some POST)
         (Some (JsObject [("tree", JsArray tree);
                          ("base_tree", optional_string baseTree)]))) ;;
  parse GitHubTreeSchema "GitHubTreeSchema" response.

Definition createCommit (owner repo message tree : string) (parents : list string)
  : Async GitHubCommit :=
  response <-
    githubRequest ("https://api.github.com/repos/" ++ owner ++ "/" ++ repo ++ "/git/commits")
      (mkOptions (Some POST)
         (Some (JsObject [("message", JsString message);
                          ("tree", JsString tree);
                          ("parents", JsArray (map JsString parents))]))) ;;
  parse GitHubCommitSchema "GitHubCommitSchema" response.

Definition updateReference (owner repo ref sha : string) : Async GitHubReference :=
  response <-
    githubRequest ("https://api.github.com/repos/" ++ owner ++ "/" ++ repo ++ "/git/refs/" ++ ref)
      (mkOptions (Some PATCH)
         (Some (JsObject [("sha", JsString sha); ("force", JsBool true)]))) ;;
  parse GitHubReferenceSchema "GitHubReferenceSchema" response.

Definition pushFiles (owner repo branch : string) (files : list FileOperation)
    (message : string) : Async GitHubReference :=
  refResponse <-
    githubRequest
      ("https://api.github.com/repos/" ++ owner ++ "/" ++ repo ++ "/git/refs/heads/" ++ branch)
      no_options ;;
  ref <- parse GitHubReferenceSchema "GitHubReferenceSchema" refResponse ;;
  let commitSha := object_sha ref in
  tree <- createTree owner repo files (Some commitSha) ;;
  commit <- createCommit owner repo message (tree_sha tree) [commitSha] ;;
  updateReference owner repo ("heads/" ++ branch) (commit_sha commit).

End Operations.

(** ** The vocabulary of the properties *)

(** [e] occurs in [s]. *)
Definition occurs (e s : string) : Prop := exists a b, s = a ++ e ++ b.

(** Whether [e] occurs in [s], as a computation. *)
Fixpoint contains (e s : string) : bool :=
  String.prefix e s
  || match s with
     | EmptyString => false
     | String _ t => contains e t
     end.

(** The address of a route of a repository on the hosting API. *)
Definition api (owner repo route : string) : string :=
  "https://api.github.com/repos/" ++ owner ++ "/" ++ repo ++ route.

(** The blob entry of an edit in a tree creation. *)
Definition blob_entry (edit : FileOperation) : JsVal :=
  JsObject [("path", JsString (path edit));
            ("mode", JsString "100644");
            ("type", JsString "blob");
            ("content", JsString (content edit))].

(** The hosting API applies a forced reference update: the reference it
    answers a forced update with points at the commit that was asked for. *)
Definition honours_forced_update {collaborators : Collaborators} : Prop :=
  forall history url sha response reference,
    github history url
      (mkOptions (Some PATCH) (Some (JsObject [("sha", JsString sha); ("force", JsBool true)])))
    = Returned response ->
    GitHubReferenceSchema response = Some reference ->
    object_sha reference = sha.

(** What [Schema.parse] makes of the outcome of a request. *)
Definition validated {A : Type} (schema : JsVal -> option A) (name : string)
    (outcome : Outcome JsVal) : Outcome A :=
  match outcome with
  | Returned response =>
      match schema response with
      | Some a => Returned a
      | None => Thrown (ZodError name)
      end
  | Thrown e => Thrown e
  end.

(** The method a call names, if any. *)
Definition call_method (c : Call) : option Method :=
  match c with
  | GithubCall _ options => method options
  | FetchCall _ => None
  end.

(** The address [getFileContents] reads a file of a branch at. *)
Definition read_address (owner repo path branch : string) : string :=
  if truthy_string branch
  then api owner repo ("/contents/" ++ path) ++ "?ref=" ++ branch
  else api owner repo ("/contents/" ++ path).

(** The options of the write of a file, the [sha] property being given as
    the list of the properties that follow [branch]. *)
Definition write_options (message content branch : string)
    (sha_property : list (string * JsVal)) : RequestOptions :=
  mkOptions (Some PUT)
    (Some (JsObject ([("message", JsString message);
                      ("content", JsString (base64_encode content));
                      ("branch", JsString branch)] ++ sha_property))).

Definition note : string := "Note: File does not exist in branch, will create new file".

(** Whether a call is the write of a file. *)
Definition is_write (c : Call) : bool :=
  match call_method c with
  | Some PUT => true
  | _ => false
  end.

(** The address [getFileContents] reads at, the branch being optional. *)
Definition contents_address (owner repo path : string) (branch : option string) : string :=
  match branch with
  | Some b => read_address owner repo path b
  | None => api owner repo ("/contents/" ++ path)
  end.

(** What each step of a push makes of an answer: the name of the schema that
    rejects it, if the schema of the step does. *)
Definition rejected_by {collaborators : Collaborators} (step : nat) (response : JsVal)
  : option string :=
  match step with
  | 0 | 3 =>
      match GitHubReferenceSchema response with
      | Some _ => None
      | None => Some "GitHubReferenceSchema"
      end
  | 1 =>
      match GitHubTreeSchema response with
      | Some _ => None
      | None => Some "GitHubTreeSchema"
      end
  | 2 =>
      match GitHubCommitSchema response with
      | Some _ => None
      | None => Some "GitHubCommitSchema"
      end
  | _ => None
  end.

(** ** Scenarios

    Small collaborators on which the operations can be run: a hosting API
    that answers each kind of request in the shape the schemas below parse,
    and a web of three documents. *)

Module Scenario.

Definition reference_json (ref sha : string) : JsVal :=
  JsObject [("ref", JsString ref); ("object", JsObject [("sha", JsString sha)])].

Definition file_json (sha content path : string) : JsVal :=
  JsObject [("sha", JsString sha); ("content", JsString content); ("path", JsString path)].

Definition parse_reference (value : JsVal) : option GitHubReference :=
  match value with
  | JsObject props =>
      match lookup "ref" props, lookup "object" props with
      | Some (JsString r), Some (JsObject object) =>
          match lookup "sha" object with
          | Some (JsString s) => Some (mkReference r s)
          | _ => None
          end
      | _, _ => None
      end
  | _ => None
  end.

Definition parse_tree (value : JsVal) : option GitHubTree :=
  match value with
  | JsObject props =>
      match lookup "sha" props, lookup "url" props with
      | Some (JsString s), Some (JsString u) => Some (mkTree s u)
      | _, _ => None
      end
  | _ => None
  end.

Definition parse_commit (value : JsVal) : option GitHubCommit :=
  match value with
  | JsObject props =>
      match lookup "sha" props, lookup "tree" props, lookup "message" props with
      | Some (JsString s), Some (JsString t), Some (JsString m) => Some (mkCommit s t [] m)
      | _, _, _ => None
      end
  | _ => None
  end.

Definition parse_file (value : JsVal) : option GitHubFileContent :=
  match value with
  | JsObject props =>
      match lookup "sha" props, lookup "content" props, lookup "path" props with
      | Some (JsString s), Some (JsString c), Some (JsString p) => Some (mkFile s c p)
      | _, _, _ => None
      end
  | _ => None
  end.

Definition parse_content (value : JsVal) : option GitHubContent :=
  match value with
  | JsArray _ => Some (ContentDirectory [])
  | _ => option_map ContentFile (parse_file value)
  end.

(** The record of a write whose commit is [sha]; authors are plain names. *)
Definition written (sha : string) : GitHubCreateUpdateFileResponse string :=
  mkWritten string None
    (mkWrittenCommit string sha "" "" "" "author" "author" "" (mkTree "" "") []).

Definition parse_written (value : JsVal)
  : option (GitHubCreateUpdateFileResponse string) :=
  match value with
  | JsObject props =>
      match lookup "commit" props with
      | Some (JsString s) => Some (written s)
      | _ => None
      end
  | _ => None
  end.

(** The value of a base64 digit. *)
Definition base64_value (c : ascii) : option nat :=
  String.index 0 (String c EmptyString) base64_alphabet.

(** The digits of a base64 text up to its padding, other characters skipped. *)
Fixpoint base64_values (s : string) : list nat :=
  match s with
  | EmptyString => []
  | String c t =>
      if (c =? "=")%char then []
      else match base64_value c with
           | Some n => n :: base64_values t
           | None => base64_values t
           end
  end.

Fixpoint bytes_of_values (values : list nat) : string :=
  match values with
  | a :: b :: c :: d :: rest =>
      String (ascii_of_nat (a * 4 + b / 16))
        (String (ascii_of_nat (b mod 16 * 16 + c / 4))
           (String (ascii_of_nat (c mod 4 * 64 + d)) (bytes_of_values rest)))
  | [a; b; c] =>
      String (ascii_of_nat (a * 4 + b / 16))
        (String (ascii_of_nat (b mod 16 * 16 + c / 4)) EmptyString)
  | [a; b] => String (ascii_of_nat (a * 4 + b / 16)) EmptyString
  | _ => EmptyString
  end.

Definition decode_base64 (s : string) : string := bytes_of_values (base64_values s).

Definition not_found : Error := TransportError 404 "Not Found".
Definition unprocessable : Error := TransportError 422 "Unprocessable Entity".
Definition server_error : Error := TransportError 500 "Internal Server Error".

(** Whether a URL addresses the contents endpoint. *)
Definition is_contents_url (url : string) : bool :=
  defined (String.index 0 "/contents/" url).

(** A hosting API whose branches all point at commit [c0] and in which the
    file read through the contents endpoint is [existing], if any.  A tree
    creation answers tree [t1], a commit creation commit [k1], a reference
    update the reference moved to the requested commit, and a file write the
    commit [w1]. *)
Definition remote (existing : option JsVal) (history : list Call) (url : string)
    (options : RequestOptions) : Outcome JsVal :=
  match method options, body options with
  | None, _ | Some GET, _ =>
      if is_contents_url url
      then match existing with
           | Some file => Returned file
           | None => Thrown not_found
           end
      else Returned (reference_json "refs/heads/main" "c0")
  | Some POST, Some (JsObject props) =>
      match lookup "tree" props with
      | Some (JsArray _) => Returned (JsObject [("sha", JsString "t1"); ("url", JsString "")])
      | Some (JsString t) =>
          Returned (JsObject [("sha", JsString "k1"); ("tree", JsString t);
                              ("message", JsString "")])
      | _ => Thrown unprocessable
      end
  | Some PATCH, Some (JsObject props) =>
      match lookup "sha" props with
      | Some (JsString s) => Returned (reference_json "refs/heads/main" s)
      | _ => Thrown unprocessable
      end
  | Some PUT, Some _ => Returned (JsObject [("commit", JsString "w1")])
  | _, _ => Thrown unprocessable
  end.

(** The same API, out of order at its call number [n]. *)
Definition failing_at (n : nat) (api : list Call -> string -> RequestOptions -> Outcome JsVal)
    (history : list Call) (url : string) (options : RequestOptions) : Outcome JsVal :=
  if (List.length history =? n)%nat then Thrown server_error else api history url options.

Definition one_block : string := "<html><code class='x'>1 &lt; 2</code></html>".
Definition two_blocks : string := "<p><code>first</code> and <code>second</code></p>".

Definition pages (history : list Call) (url : string) : Outcome string :=
  if (url =? "https://example.org/one")%string then Returned one_block
  else if (url =? "https://example.org/two")%string then Returned two_blocks
  else if (url =? "https://example.org/none")%string then Returned "<p>no block</p>"
  else Thrown not_found.

Definition collaborators (api : list Call -> string -> RequestOptions -> Outcome JsVal)
  : Collaborators :=
  {| github := api;
     web := pages;
     GitHubContentSchema := parse_content;
     GitHubTreeSchema := parse_tree;
     GitHubCommitSchema := parse_commit;
     GitHubReferenceSchema := parse_reference;
     GitHubAuthor := string;
     GitHubCreateUpdateFileResponseSchema := parse_written;
     base64_decode := decode_base64 |}.

Definition start : World := mkWorld [] [].

Definition edits : list FileOperation :=
  [mkFileOperation "a.txt" "X"; mkFileOperation "b.txt" "Y"].

(** A repository without the file, one with it, and one whose API is out of
    order at the second call. *)
Definition hub : Collaborators := collaborators (remote None).

Definition hub_with_file : Collaborators :=
  collaborators (remote (Some (file_json "f1" "aGk=" "a.txt"))).

Definition broken_hub : Collaborators := collaborators (failing_at 1 (remote None)).

Definition ReadHead : Call := GithubCall (api "o" "r" "/git/refs/heads/main") no_options.

Definition BuildTree : Call :=
  GithubCall (api "o" "r" "/git/trees")
    (mkOptions (Some POST)
       (Some (JsObject [("tree", JsArray (map blob_entry edits));
                        ("base_tree", JsString "c0")]))).

Definition BuildCommit : Call :=
  GithubCall (api "o" "r" "/git/commits")
    (mkOptions (Some POST)
       (Some (JsObject [("message", JsString "msg");
                        ("tree", JsString "t1");
                        ("parents", JsArray [JsString "c0"])]))).

Definition UpdateRef : Call :=
  GithubCall (api "o" "r" "/git/refs/heads/main")
    (mkOptions (Some PATCH)
       (Some (JsObject [("sha", JsString "k1"); ("force", JsBool true)]))).

Definition PreRead : Call :=
  GithubCall "https://api.github.com/repos/o/r/contents/a.txt?ref=main" no_options.

(** The write of [X] to [a.txt] on [main], with the given properties after
    [branch]. *)
Definition PutFile (sha_property : list (string * JsVal)) : Call :=
  GithubCall "https://api.github.com/repos/o/r/contents/a.txt"
    (mkOptions (Some PUT)
       (Some (JsObject ([("message", JsString "msg");
                         ("content", JsString "WA==");
                         ("branch", JsString "main")] ++ sha_property)))).

End Scenario.

(** ** Further scenarios *)

Module Cases.

(** An API that answers its call number [n] with [null]. *)
Definition garbled_at (n : nat) (api : list Call -> string -> RequestOptions -> Outcome JsVal)
    (history : list Call) (url : string) (options : RequestOptions) : Outcome JsVal :=
  if (List.length history =? n)%nat then Returned JsNull else api history url options.

(** A repository whose tree creation is answered with [null]. *)
Definition garbled_hub : Collaborators :=
  Scenario.collaborators (garbled_at 1 (Scenario.remote None)).

(** A repository in which the path is a directory. *)
Definition hub_with_directory : Collaborators :=
  Scenario.collaborators (Scenario.remote (Some (JsArray []))).

Definition missing_block : Error :=
  JsError "Could not find a singular <code> block in the published artifact".

End Cases.

(** * Properties *)

(** ** Strings *)

Lemma string_app_assoc (a b c : string) : (a ++ b) ++ c = a ++ (b ++ c).
Proof. induction a as [|x a IH]; simpl; [reflexivity | now rewrite IH]. Qed.

Lemma string_app_empty_r (a : string) : a ++ EmptyString = a.
Proof. induction a as [|x a IH]; simpl; [reflexivity | now rewrite IH]. Qed.

Lemma string_length_app (a b : string) :
  String.length (a ++ b) = String.length a + String.length b.
Proof. induction a as [|x a IH]; simpl; [reflexivity | now rewrite IH]. Qed.

Lemma string_drop_app (a b : string) : string_drop (String.length a) (a ++ b) = b.
Proof. induction a as [|x a IH]; simpl; [now destruct b | exact IH]. Qed.

Lemma occurs_cons (e : string) (c : ascii) (s : string) : occurs e s -> occurs e (String c s).
Proof. intros (a & b & ->). now exists (String c a), b. Qed.

Lemma occurs_app (e m s : string) : occurs e s -> occurs e (m ++ s).
Proof. induction m as [|x m IH]; simpl; auto using occurs_cons. Qed.

(** ** The entity pattern *)

Lemma entity_tail_sound (s m : string) :
  entity_tail s = Some m -> exists rest, s = m ++ rest /\ 1 <= String.length m.
Proof.
  revert m; induction s as [|c t IH]; simpl; intros m H; [discriminate|].
  assert (Hstop : (if (c =? ";")%char then Some ";" else None) = Some m ->
                  exists rest, String c t = m ++ rest /\ 1 <= String.length m).
  { destruct (Ascii.eqb_spec c ";") as [->|_]; intros [= <-].
    exists t; simpl; split; [reflexivity | lia]. }
  destruct (entity_class c); [|auto].
  destruct (entity_tail t) as [m'|] eqn:E; [|auto].
  injection H as <-. destruct (IH m' eq_refl) as (rest & -> & Hlen).
  exists rest; simpl; split; [reflexivity | lia].
Qed.

(** The pattern at the start of a string, by its first character. *)
Lemma entity_match_cons (c0 : ascii) (r : string) :
  entity_match (String c0 r)
  = if (c0 =? "&")%char
    then match r with
         | String c t =>
             if entity_class c
             then match entity_tail t with
                  | Some m => Some (String "&" (String c m))
                  | None => None
                  end
             else None
         | EmptyString => None
         end
    else None.
Proof.
  destruct c0 as [[] [] [] [] [] [] [] []]; try reflexivity.
Qed.

Lemma entity_match_sound (s m : string) :
  entity_match s = Some m -> exists rest, s = m ++ rest /\ 3 <= String.length m.
Proof.
  destruct s as [|c0 r]; [discriminate|].
  rewrite entity_match_cons.
  destruct (Ascii.eqb_spec c0 "&") as [->|_]; [|discriminate].
  destruct r as [|c t]; [discriminate|].
  destruct (entity_class c); [|discriminate].
  destruct (entity_tail t) as [m'|] eqn:E; [|discriminate].
  intros [= <-]. destruct (entity_tail_sound _ _ E) as (rest & -> & Hlen).
  exists rest; simpl; split; [reflexivity | lia].
Qed.

(** An ampersand ends whatever the pattern was matching. *)
Lemma entity_tail_amp (t x : string) :
  entity_tail (t ++ String "&" x) = entity_tail t.
Proof.
  induction t as [|c t IH]; simpl; [reflexivity|].
  now rewrite IH.
Qed.

Lemma entity_match_amp (c : ascii) (t x : string) :
  entity_match (String c t ++ String "&" x) = entity_match (String c t).
Proof.
  change (String c t ++ String "&" x) with (String c (t ++ String "&" x)).
  rewrite !entity_match_cons.
  destruct (c =? "&")%char; [|reflexivity].
  destruct t as [|c1 t]; simpl; [reflexivity|].
  now rewrite entity_tail_amp.
Qed.

Lemma replace_entities_skip (c : ascii) (t : string) :
  entity_match (String c t) = None ->
  replace_entities (String c t) = String c (replace_entities t).
Proof.
  intros H. simp replace_entities. rewrite H. reflexivity.
Qed.

Lemma replace_entities_hit (m rest : string) :
  entity_match (m ++ rest) = Some m ->
  replace_entities (m ++ rest) = entity_replacement m ++ replace_entities rest.
Proof.
  intros H. destruct (entity_match_sound _ _ H) as (_ & _ & Hlen).
  destruct m as [|c m']; [simpl in Hlen; lia|].
  change (String c m' ++ rest) with (String c (m' ++ rest)) in *.
  simp replace_entities. rewrite H. simpl.
  now rewrite Nat.sub_0_r, string_drop_app.
Qed.

(** The scan of [a ++ "&..."] is the scan of [a] followed by the scan of the
    rest: no match starts in [a] and runs over the ampersand. *)
Lemma replace_entities_app_amp (a x : string) :
  replace_entities (a ++ String "&" x)
  = replace_entities a ++ replace_entities (String "&" x).
Proof.
  remember (String.length a) as n eqn:Hn. revert a Hn.
  induction n as [n IH] using lt_wf_ind. intros a Hn.
  destruct a as [|c t]; [reflexivity|].
  destruct (entity_match (String c t)) as [m|] eqn:E.
  - destruct (entity_match_sound _ _ E) as (rest & Hs & Hlen).
    rewrite Hs in E |- *. rewrite string_app_assoc.
    assert (E' : entity_match (m ++ rest ++ String "&" x) = Some m).
    { rewrite <- string_app_assoc, <- Hs, entity_match_amp, Hs. exact E. }
    rewrite (replace_entities_hit _ _ E'), (replace_entities_hit _ _ E).
    rewrite string_app_assoc. f_equal.
    apply (IH (String.length rest)); [|reflexivity].
    subst n. rewrite Hs, string_length_app. lia.
  - assert (E' : entity_match (String c (t ++ String "&" x)) = None).
    { change (String c (t ++ String "&" x)) with (String c t ++ String "&" x).
      now rewrite entity_match_amp. }
    simpl. rewrite (replace_entities_skip _ _ E'), (replace_entities_skip _ _ E).
    simpl. f_equal. apply (IH (String.length t)); [subst n; simpl; lia | reflexivity].
Qed.

Lemma lookup_In {A : Type} (key : string) (props : list (string * A)) (v : A) :
  lookup key props = Some v -> In (key, v) props.
Proof.
  induction props as [|[k v'] rest IH]; simpl; [discriminate|].
  destruct (String.eqb_spec k key) as [->|_]; [intros [= ->]; now left | auto].
Qed.

(** Each of the six entities, at the start of a string, is replaced by its
    character. *)
Lemma replace_entities_entity (e v b : string) :
  In (e, v) entities ->
  replace_entities (e ++ b) = v ++ replace_entities b.
Proof.
  unfold entities; simpl.
  intros [H|[H|[H|[H|[H|[H|[]]]]]]]; injection H as <- <-;
    (rewrite replace_entities_hit; [reflexivity | reflexivity]).
Qed.

Lemma entity_starts_with_amp (e v : string) :
  In (e, v) entities -> exists x, e = String "&" x.
Proof.
  unfold entities; simpl.
  intros [H|[H|[H|[H|[H|[H|[]]]]]]]; injection H as <- <-; eexists; reflexivity.
Qed.

Lemma replace_entities_fixed (s : string) :
  (forall e v, In (e, v) entities -> ~ occurs e s) ->
  replace_entities s = s.
Proof.
  remember (String.length s) as n eqn:Hn. revert s Hn.
  induction n as [n IH] using lt_wf_ind. intros s Hn Hfree.
  destruct s as [|c t]; [reflexivity|].
  destruct (entity_match (String c t)) as [m|] eqn:E.
  - destruct (entity_match_sound _ _ E) as (rest & Hs & Hlen).
    rewrite Hs in E |- *. rewrite (replace_entities_hit _ _ E).
    assert (Hm : entity_replacement m = m).
    { unfold entity_replacement. destruct (lookup m entities) as [v|] eqn:L; [|reflexivity].
      exfalso. apply (Hfree m v (lookup_In _ _ _ L)).
      exists EmptyString, rest. exact Hs. }
    rewrite Hm. f_equal.
    apply (IH (String.length rest)); [|reflexivity|].
    + subst n. rewrite Hs, string_length_app. lia.
    + intros e v Hin Hocc. apply (Hfree e v Hin). rewrite Hs. now apply occurs_app.
  - rewrite (replace_entities_skip _ _ E). f_equal.
    apply (IH (String.length t)); [subst n; simpl; lia | reflexivity |].
    intros e v Hin Hocc. apply (Hfree e v Hin). now apply occurs_cons.
Qed.

(** C8. [decodeHTMLEntities] replaces every occurrence of one of the six
    entities [&quot;], [&amp;], [&apos;], [&lt;], [&gt;] and [&#x27;] by its
    character (the double quote, [&], ['], [<], [>] and [']), decoding what
    is before and what is after the occurrence on their own, and it returns
    unchanged any string in which none of the six occurs, whatever other
    [&...;] sequences the string holds. *)
Theorem decodeHTMLEntities_replaces_the_six_entities :
  let six : list (string * string) :=
    [ ("&quot;", String (ascii_of_nat 34) EmptyString);
      ("&amp;", "&");
      ("&apos;", "'");
      ("&lt;", "<");
      ("&gt;", ">");
      ("&#x27;", "'") ] in
  (forall a e v b : string,
      In (e, v) six ->
      decodeHTMLEntities (a ++ e ++ b)
      = decodeHTMLEntities a ++ v ++ decodeHTMLEntities b)
  /\ (forall s : string,
         (forall e v, In (e, v) six -> ~ occurs e s) ->
         decodeHTMLEntities s = s).
Proof.
  intros six.
  assert (Htable : six = entities) by reflexivity.
  clearbody six. subst six.
  unfold decodeHTMLEntities. split.
  - intros a e v b Hin.
    destruct (entity_starts_with_amp _ _ Hin) as (x & He).
    rewrite He at 1. simpl. rewrite replace_entities_app_amp.
    change (String "&" (x ++ b)) with (String "&" x ++ b). rewrite <- He.
    now rewrite (replace_entities_entity _ _ _ Hin).
  - exact replace_entities_fixed.
Qed.

(** *** Sample runs of the pure functions *)

Example decode_sample :
  decodeHTMLEntities "a &lt; b &amp;&amp; c &gt; d" = "a < b && c > d".
Proof. reflexivity. Qed.

Example decode_keeps_unknown_entities :
  decodeHTMLEntities "&nbsp;&amp;lt;&#x27;&unknown" = "&nbsp;&lt;'&unknown".
Proof. reflexivity. Qed.

Example base64_encode_samples :
  base64_encode "Man" = "TWFu" /\ base64_encode "Ma" = "TWE=" /\ base64_encode "M" = "TQ=="
  /\ base64_encode "hello world" = "aGVsbG8gd29ybGQ=".
Proof. repeat split. Qed.

Example match_sample :
  String_match "<p><code class='x'>a&lt;b</code> and <code>c</code>"
  = Some (3, "<code class='x'>a&lt;b</code>", "a&lt;b").
Proof. reflexivity. Qed.

Example regions_sample :
  code_regions "<p><code class='x'>a&lt;b</code> and <code>c</code>" = ["a&lt;b"; "c"]
  /\ code_regions "<code>a<code>b</code></code>" = ["a<code>b"]
  /\ code_regions "<code a</code>" = [].
Proof. repeat split. Qed.

(** ** The operations *)

Section Properties.

Context {collaborators : Collaborators}.

Lemma app_one_assoc {A : Type} (l : list A) (x : A) (l' : list A) :
  ((l ++ [x]) ++ l' = l ++ x :: l')%list.
Proof. now rewrite <- app_assoc. Qed.

(** *** Running a computation step by step *)

Lemma bind_bind {A B C : Type} (m : Async A) (f : A -> Async B) (g : B -> Async C) (w : World) :
  bind (bind m f) g w = bind m (fun x => bind (f x) g) w.
Proof. unfold bind. destruct (m w) as [[a|e] w']; reflexivity. Qed.

Lemma ret_bind {A B : Type} (a : A) (k : A -> Async B) (w : World) :
  bind (ret a) k w = k a w.
Proof. reflexivity. Qed.

Lemma throw_bind {A B : Type} (e : Error) (k : A -> Async B) (w : World) :
  bind (throw e) k w = (Thrown e, w).
Proof. reflexivity. Qed.

Lemma githubRequest_bind {B : Type} (url : string) (options : RequestOptions)
    (k : JsVal -> Async B) (w : World) :
  bind (githubRequest url options) k w
  = match github (calls w) url options with
    | Returned response =>
        k response (mkWorld (calls w ++ [GithubCall url options]) (console w))
    | Thrown e => (Thrown e, mkWorld (calls w ++ [GithubCall url options]) (console w))
    end.
Proof.
  unfold bind, githubRequest. destruct (github (calls w) url options); reflexivity.
Qed.

Lemma parse_bind {A B : Type} (schema : JsVal -> option A) (name : string) (value : JsVal)
    (k : A -> Async B) (w : World) :
  bind (parse schema name value) k w
  = match schema value with
    | Some a => k a w
    | None => (Thrown (ZodError name), w)
    end.
Proof. unfold bind, parse. destruct (schema value); reflexivity. Qed.

(** One request through the transport client, then the schema. *)
Lemma request_and_parse {A : Type} (schema : JsVal -> option A) (name url : string)
    (options : RequestOptions) (w : World) :
  (response <- githubRequest url options ;; parse schema name response) w
  = (validated schema name (github (calls w) url options),
     mkWorld (calls w ++ [GithubCall url options]) (console w)).
Proof.
  rewrite githubRequest_bind. unfold validated, parse, ret, throw.
  destruct (github (calls w) url options) as [response|e]; [|reflexivity].
  destruct (schema response); reflexivity.
Qed.

Ltac normalise :=
  unfold api, blob_entry, optional_string, no_options in *; cbn [append map] in *.

Ltac run_step :=
  first [ rewrite bind_bind | rewrite githubRequest_bind | rewrite parse_bind
        | rewrite ret_bind | rewrite throw_bind ];
  cbn [calls console]; rewrite <- ?app_assoc; cbn [app].

(** C1. When the branch exists with head commit [C0] and the tree creation,
    the commit creation and the reference update succeed on a hosting API
    that applies forced updates, [pushFiles] issues exactly four calls, in
    this order: the read of [git/refs/heads/<branch>]; the creation of a tree
    with [base_tree = C0] and one blob entry per edit; the creation of a
    commit with the new tree and [parents = [C0]]; the update of
    [git/refs/heads/<branch>] to the new commit with [force = true].  It
    returns the reference the update answered, which points at the new
    commit. *)
Theorem pushFiles_issues_four_calls
    (owner repo branch : string) (files : list FileOperation) (message : string)
    (w : World) (r0 t1 k1 r1 : JsVal)
    (head updated : GitHubReference) (tree : GitHubTree) (commit : GitHubCommit) :
  let C0 := object_sha head in
  let reference := api owner repo ("/git/refs/heads/" ++ branch) in
  let tree_request :=
    mkOptions (Some POST)
      (Some (JsObject [("tree", JsArray (map blob_entry files));
                       ("base_tree", JsString C0)])) in
  let commit_request :=
    mkOptions (Some POST)
      (Some (JsObject [("message", JsString message);
                       ("tree", JsString (tree_sha tree));
                       ("parents", JsArray [JsString C0])])) in
  let update_request :=
    mkOptions (Some PATCH)
      (Some (JsObject [("sha", JsString (commit_sha commit));
                       ("force", JsBool true)])) in
  let ReadHead := GithubCall reference no_options in
  let BuildTree := GithubCall (api owner repo "/git/trees") tree_request in
  let BuildCommit := GithubCall (api owner repo "/git/commits") commit_request in
  let UpdateRef := GithubCall reference update_request in
  honours_forced_update ->
  github (calls w) reference no_options = Returned r0 ->
  GitHubReferenceSchema r0 = Some head ->
  github (calls w ++ [ReadHead]) (api owner repo "/git/trees") tree_request = Returned t1 ->
  GitHubTreeSchema t1 = Some tree ->
  github (calls w ++ [ReadHead; BuildTree]) (api owner repo "/git/commits") commit_request
  = Returned k1 ->
  GitHubCommitSchema k1 = Some commit ->
  github (calls w ++ [ReadHead; BuildTree; BuildCommit]) reference update_request
  = Returned r1 ->
  GitHubReferenceSchema r1 = Some updated ->
  pushFiles owner repo branch files message w
  = (Returned updated,
     mkWorld (calls w ++ [ReadHead; BuildTree; BuildCommit; UpdateRef]) (console w))
  /\ object_sha updated = commit_sha commit
  /\ List.length (map blob_entry files) = List.length files.
Proof.
  intros C0 reference tree_request commit_request update_request
    ReadHead BuildTree BuildCommit UpdateRef Hforce H0 P0 H1 P1 H2 P2 H3 P3.
  subst C0 reference tree_request commit_request update_request
    ReadHead BuildTree BuildCommit UpdateRef.
  split; [|split].
  - unfold pushFiles, createTree, createCommit, updateReference.
    normalise.
    run_step. rewrite H0. run_step. rewrite P0.
    run_step. run_step. rewrite H1. run_step. rewrite P1.
    run_step. run_step. rewrite H2. run_step. rewrite P2.
    rewrite request_and_parse. cbn [calls console]. rewrite <- ?app_assoc. cbn [app].
    rewrite H3. unfold validated. rewrite P3. reflexivity.
  - exact (Hforce _ _ _ _ _ H3 P3).
  - apply length_map.
Qed.

Lemma skipn_app_length {A : Type} (l t : list A) : skipn (List.length l) (l ++ t) = t.
Proof. induction l as [|x l IH]; [reflexivity | exact IH]. Qed.

(** Case analysis on the outcome of the request, or of the parse, the run
    has come to. *)
Ltac next_request :=
  match goal with
  | |- context [match github ?h ?u ?o with _ => _ end] =>
      let E := fresh "E" in destruct (github h u o) eqn:E
  end.

Ltac next_parse :=
  match goal with
  | |- context [match ?schema ?r with Some _ => _ | None => _ end] =>
      let P := fresh "P" in destruct (schema r) eqn:P
  end.

(** The run has come to an end with an explicit list of calls: the request
    at position [i] that failed is the last of them. *)
Ltac failed_step i :=
  cbn [fst snd calls]; rewrite skipn_app_length;
  destruct i as [|[|[|[|[|i]]]]]; cbn [nth_error firstn];
  let Hnth := fresh "Hnth" in
  let He := fresh "He" in
  intros Hnth He; try discriminate Hnth;
  injection Hnth as <- <-; rewrite ?app_nil_r in He; cbn [app] in He;
  try congruence;
  repeat split; congruence.

(** C5. Whichever request of a push the hosting API fails, that request is
    the last call of the push and its error is the outcome of the push,
    unchanged: no later step is started and no step is tried again, the
    calls issued being the first steps of read, tree creation, commit
    creation and reference update, each once. *)
Theorem pushFiles_stops_at_the_first_failure
    (owner repo branch : string) (files : list FileOperation) (message : string)
    (w : World) (i : nat) (url : string) (options : RequestOptions) (e : Error) :
  let result := pushFiles owner repo branch files message w in
  let trace := skipn (List.length (calls w)) (calls (snd result)) in
  nth_error trace i = Some (GithubCall url options) ->
  github (calls w ++ firstn i trace) url options = Thrown e ->
  fst result = Thrown e
  /\ calls (snd result) = (calls w ++ trace)%list
  /\ List.length trace = S i
  /\ map call_method trace = firstn (S i) [None; Some POST; Some POST; Some PATCH].
Proof.
  intros result trace. subst trace result.
  unfold pushFiles, createTree, createCommit, updateReference.
  normalise.
  run_step. next_request; [|failed_step i].
  run_step. next_parse; [|failed_step i].
  run_step. run_step. next_request; [|failed_step i].
  run_step. next_parse; [|failed_step i].
  run_step. run_step. next_request; [|failed_step i].
  run_step. next_parse; [|failed_step i].
  rewrite request_and_parse. cbn [calls console]. rewrite <- ?app_assoc. cbn [app].
  unfold validated. next_request; [next_parse|]; failed_step i.
Qed.

(** C7. [createTree] issues one request, a [POST] to [git/trees], whose body
    holds a [tree] array and the optional base under [base_tree].  The array
    has one entry per edit, in the order of the edits, and the entry of an
    edit is [{path, mode: "100644", type: "blob", content}] with the path
    and the inline content of the edit. *)
Theorem createTree_sends_one_blob_entry_per_edit
    (owner repo : string) (files : list FileOperation) (baseTree : option string)
    (w : World) :
  exists entries : list JsVal,
    snd (createTree owner repo files baseTree w)
    = mkWorld
        (calls w
         ++ [GithubCall (api owner repo "/git/trees")
               (mkOptions (Some POST)
                  (Some (JsObject
                           [("tree", JsArray entries);
                            ("base_tree",
                             match baseTree with
                             | Some base => JsString base
                             | None => JsUndefined
                             end)])))])
        (console w)
    /\ List.length entries = List.length files
    /\ forall (i : nat) (edit : FileOperation),
        nth_error files i = Some edit ->
        nth_error entries i
        = Some (JsObject [("path", JsString (path edit));
                          ("mode", JsString "100644");
                          ("type", JsString "blob");
                          ("content", JsString (content edit))]).
Proof.
  exists (map blob_entry files). split; [|split].
  - unfold createTree. rewrite request_and_parse. reflexivity.
  - apply length_map.
  - intros i edit H. now rewrite nth_error_map, H.
Qed.

(** C10. When the hosting API answers the read with a single-file record
    whose content is not empty, [getFileContents] returns the record with
    its content replaced by the decoded text; when it answers with an array,
    [getFileContents] returns the directory listing as it is. *)
Theorem getFileContents_decodes_the_content_of_a_file
    (owner repo path : string) (branch : option string) (w : World) (response : JsVal) :
  let url := api owner repo ("/contents/" ++ path) in
  let url :=
    match branch with
    | Some b => if truthy_string b then url ++ "?ref=" ++ b else url
    | None => url
    end in
  github (calls w) url no_options = Returned response ->
  (forall file : GitHubFileContent,
      GitHubContentSchema response = Some (ContentFile file) ->
      file_content file <> EmptyString ->
      fst (getFileContents owner repo path branch w)
      = Returned (ContentFile (mkFile (file_sha file)
                                 (base64_decode (file_content file))
                                 (file_path file))))
  /\ (forall entries : list GitHubDirectoryContent,
         GitHubContentSchema response = Some (ContentDirectory entries) ->
         fst (getFileContents owner repo path branch w)
         = Returned (ContentDirectory entries)).
Proof.
  intros url0 url H. subst url url0. unfold getFileContents.
  fold (api owner repo ("/contents/" ++ path)).
  split.
  - intros file P Hne. run_step. rewrite H. run_step. rewrite P.
    destruct (file_content file); [contradiction | reflexivity].
  - intros entries P. run_step. rewrite H. run_step. rewrite P. reflexivity.
Qed.


(** *** The content resolver *)

Lemma code_regions_of_match (html : string) :
  match String_match html with
  | Some (_, _, g) => exists others, code_regions html = g :: others
  | None => code_regions html = []
  end.
Proof.
  destruct html as [|c t]; [reflexivity|].
  simp code_regions. destruct (String_match (String c t)) as [[[i m] g]|]; cbn.
  - eexists; reflexivity.
  - reflexivity.
Qed.

Lemma fetch_text_bind {B : Type} (url : string) (k : string -> Async B) (w : World) :
  bind (fetch_text url) k w
  = match web (calls w) url with
    | Returned html => k html (mkWorld (calls w ++ [FetchCall url]) (console w))
    | Thrown e => (Thrown e, mkWorld (calls w ++ [FetchCall url]) (console w))
    end.
Proof. unfold bind, fetch_text. destruct (web (calls w) url); reflexivity. Qed.

(** C2, as the code has it.  The document fetched, the resolver returns the
    entity-decoded text of its first code region, whether or not other
    regions follow, and it throws the error of the missing block exactly when
    the document has no region. *)
Theorem resolveContent_takes_the_first_code_region
    (url : string) (w : World) (html : string) :
  let after := mkWorld (calls w ++ [FetchCall url]) (console w) in
  web (calls w) url = Returned html ->
  (code_regions html = [] ->
   resolveContent None (Some url) w
   = (Thrown (JsError "Could not find a singular <code> block in the published artifact"),
      after))
  /\ (forall region others : _,
         code_regions html = region :: others ->
         resolveContent None (Some url) w = (Returned (decodeHTMLEntities region), after)).
Proof.
  intros after H. subst after. unfold resolveContent.
  rewrite fetch_text_bind, H.
  pose proof (code_regions_of_match html) as R.
  destruct (String_match html) as [[[i m] g]|].
  - destruct R as (rest & R). rewrite R. split; [discriminate|].
    intros region others [= <- _]. reflexivity.
  - rewrite R. split; [reflexivity | discriminate].
Qed.

(** C3, as the code has it.  The refinements of [CreateOrUpdateFileSchema]
    raise an issue when both or neither of the two arguments are given and
    none when exactly one is.  [createOrUpdateFile] itself throws, before
    any network call, only when neither is given; given a content it takes
    it verbatim without any network call, whether or not a URL comes with
    it; given a URL alone its first call is the fetch of that document. *)
Theorem resolveContent_chooses_the_source :
  (forall content url : option string,
      CreateOrUpdateFileSchema_issues content url = []
      <-> (defined content = negb (defined url)))
  /\ (forall c u : string,
         CreateOrUpdateFileSchema_issues (Some c) (Some u)
         = ["Only one of 'content' or 'published_artifact_url' can be provided"])
  /\ CreateOrUpdateFileSchema_issues None None
     = ["Either 'content' or 'published_artifact_url' must be provided"]
  /\ (forall w : World,
         resolveContent None None w
         = (Thrown (JsError "Either 'content' or 'published_artifact_url' must be provided"),
            w))
  /\ (forall (c : string) (url : option string) (w : World),
         resolveContent (Some c) url w = (Returned c, w))
  /\ (forall (u : string) (w : World),
         snd (resolveContent None (Some u) w)
         = mkWorld (calls w ++ [FetchCall u]) (console w)).
Proof.
  split; [|repeat split].
  - intros [c|] [u|]; cbn; split; intros H; congruence.
  - intros u w. unfold resolveContent. rewrite fetch_text_bind.
    destruct (web (calls w) u) as [html|e]; [|reflexivity].
    destruct (String_match html) as [[[i m] g]|]; reflexivity.
Qed.


(** *** The single-file writer *)

Lemma getFileContents_run (owner repo path branch : string) (w : World) :
  getFileContents owner repo path (Some branch) w
  = (match validated GitHubContentSchema "GitHubContentSchema"
             (github (calls w) (read_address owner repo path branch) no_options) with
     | Returned (ContentFile f) =>
         Returned
           (if truthy_string (file_content f)
            then ContentFile (mkFile (file_sha f) (base64_decode (file_content f)) (file_path f))
            else ContentFile f)
     | Returned (ContentDirectory entries) => Returned (ContentDirectory entries)
     | Thrown e => Thrown e
     end,
     mkWorld (calls w ++ [GithubCall (read_address owner repo path branch) no_options])
       (console w)).
Proof.
  unfold getFileContents, read_address, api, validated.
  destruct (truthy_string branch);
    run_step; (destruct (github _ _ _) as [response|e]; [|reflexivity]);
    run_step; (destruct (GitHubContentSchema response) as [[f|entries]|]; reflexivity).
Qed.

(** The value of [currentSha] after lines 156 to 166, and what they did. *)
Lemma resolveSha_run (owner repo path branch : string) (sha : option string) (w : World) :
  let read := GithubCall (read_address owner repo path branch) no_options in
  resolveSha owner repo path branch sha w
  = if truthy sha then (Returned sha, w)
    else match fst (getFileContents owner repo path (Some branch) w) with
         | Returned (ContentFile f) =>
             (Returned (Some (file_sha f)), mkWorld (calls w ++ [read]) (console w))
         | Returned (ContentDirectory _) =>
             (Returned sha, mkWorld (calls w ++ [read]) (console w))
         | Thrown _ =>
             (Returned sha, mkWorld (calls w ++ [read]) (console w ++ [note]))
         end.
Proof.
  intros read. subst read. unfold resolveSha.
  destruct (truthy sha); [reflexivity|].
  unfold try_catch, bind. rewrite getFileContents_run. cbn [fst].
  destruct (validated _ _ _) as [[f|entries]|e]; try reflexivity.
  destruct (truthy_string (file_content f)); reflexivity.
Qed.

(** The run of [createOrUpdateFile] once the content is resolved and the
    value of [currentSha] known. *)
Lemma createOrUpdateFile_run
    (owner repo path : string) (content url : option string)
    (message branch : string) (sha : option string)
    (w w1 w2 : World) (fileContent : string) (currentSha : option string) :
  let options :=
    write_options message fileContent branch
      (if truthy currentSha
       then [("sha", optional_string currentSha)]
       else []) in
  resolveContent content url w = (Returned fileContent, w1) ->
  resolveSha owner repo path branch sha w1 = (Returned currentSha, w2) ->
  createOrUpdateFile owner repo path content url message branch sha w
  = (validated GitHubCreateUpdateFileResponseSchema "GitHubCreateUpdateFileResponseSchema"
       (github (calls w2) (api owner repo ("/contents/" ++ path)) options),
     mkWorld (calls w2 ++ [GithubCall (api owner repo ("/contents/" ++ path)) options])
       (console w2)).
Proof.
  intros options Hc Hs. subst options. unfold createOrUpdateFile.
  unfold bind at 1. rewrite Hc. unfold bind at 1. rewrite Hs.
  rewrite request_and_parse. unfold write_options, write_body, api.
  destruct currentSha as [[|c s]|]; reflexivity.
Qed.

(** The resolver issues no request to the hosting API: at most the fetch of
    the document. *)
Lemma resolveContent_calls (content url : option string) (w : World) :
  exists fetches,
    calls (snd (resolveContent content url w)) = (calls w ++ fetches)%list
    /\ console (snd (resolveContent content url w)) = console w
    /\ forall c, In c fetches -> exists u, c = FetchCall u.
Proof.
  destruct content as [c|]; [exists []; cbn; rewrite app_nil_r; intuition|].
  destruct url as [u|]; [|exists []; cbn; rewrite app_nil_r; intuition].
  exists [FetchCall u]. unfold resolveContent. rewrite fetch_text_bind.
  assert (Hin : forall c, In c [FetchCall u] -> exists u0, c = FetchCall u0).
  { intros c [<-|[]]. now exists u. }
  destruct (web (calls w) u) as [html|e]; [|cbn; auto].
  destruct (String_match html) as [[[i m] g]|]; cbn; auto.
Qed.


(** C4. No [sha] being given, [createOrUpdateFile] reads the file at [path]
    on [branch] once before it writes.  When the read returns a single-file
    record, the [sha] of the record becomes the value of [currentSha] and
    goes into the body of the write.  When the read throws, whatever the
    error, the error is not the outcome of the call: the note is logged and
    the write is issued with no [sha], its outcome being the outcome of the
    call. *)
Theorem createOrUpdateFile_reads_the_file_when_no_sha_is_given
    (owner repo path : string) (content url : option string)
    (message branch : string) (w w1 : World) (fileContent : string) :
  let address := api owner repo ("/contents/" ++ path) in
  let PreRead := GithubCall (read_address owner repo path branch) no_options in
  let PutFile sha_property :=
    GithubCall address (write_options message fileContent branch sha_property) in
  let result := createOrUpdateFile owner repo path content url message branch None w in
  resolveContent content url w = (Returned fileContent, w1) ->
  (forall file : GitHubFileContent,
      fst (getFileContents owner repo path (Some branch) w1) = Returned (ContentFile file) ->
      resolveSha owner repo path branch None w1
      = (Returned (Some (file_sha file)), mkWorld (calls w1 ++ [PreRead]) (console w1))
      /\ (file_sha file <> EmptyString ->
          snd result
          = mkWorld (calls w1 ++ [PreRead; PutFile [("sha", JsString (file_sha file))]])
              (console w1)))
  /\ (forall e : Error,
         fst (getFileContents owner repo path (Some branch) w1) = Thrown e ->
         result
         = (validated GitHubCreateUpdateFileResponseSchema
              "GitHubCreateUpdateFileResponseSchema"
              (github (calls w1 ++ [PreRead]) address
                 (write_options message fileContent branch [])),
            mkWorld (calls w1 ++ [PreRead; PutFile []]) (console w1 ++ [note]))).
Proof.
  intros address PreRead PutFile result Hc. subst address PreRead PutFile result.
  pose proof (resolveSha_run owner repo path branch None w1) as Hs.
  cbn zeta in Hs. cbn [truthy] in Hs.
  split.
  - intros file Hread. rewrite Hread in Hs. split; [exact Hs|].
    intros Hsha. rewrite (createOrUpdateFile_run _ _ _ _ _ _ _ _ _ _ _ _ _ Hc Hs).
    cbn [snd calls console truthy optional_string]. rewrite <- app_assoc.
    destruct (file_sha file); [contradiction | reflexivity].
  - intros e Hread. rewrite Hread in Hs.
    rewrite (createOrUpdateFile_run _ _ _ _ _ _ _ _ _ _ _ _ _ Hc Hs).
    cbn [snd calls console truthy]. rewrite <- app_assoc. reflexivity.
Qed.


Lemma truthy_some (s : string) : s <> EmptyString -> truthy (Some s) = true.
Proof. destruct s; [contradiction | reflexivity]. Qed.

Lemma filter_is_write_none (l : list Call) :
  (forall c, In c l -> call_method c = None) -> filter is_write l = [].
Proof.
  induction l as [|c l IH]; [reflexivity|]. intros H. cbn [filter].
  unfold is_write at 1. rewrite (H c (or_introl eq_refl)). apply IH.
  intros c' Hin. apply H. now right.
Qed.

(** C6. The content once resolved, [createOrUpdateFile] issues exactly one
    write, its last call, with the body [{message, content, branch}] whose
    content is the base64 encoding of the resolved content, followed by a
    [sha] property if and only if a version token is known: the non-empty
    [sha] the caller gave, or else the non-empty [sha] of the single-file
    record the read returned. *)
Theorem createOrUpdateFile_writes_once
    (owner repo path : string) (content url : option string)
    (message branch : string) (sha : option string) (w w1 : World)
    (fileContent : string) :
  let address := api owner repo ("/contents/" ++ path) in
  let result := createOrUpdateFile owner repo path content url message branch sha w in
  let known (s : string) : Prop :=
    s <> EmptyString
    /\ (sha = Some s
        \/ (truthy sha = false
            /\ exists file : GitHubFileContent,
                fst (getFileContents owner repo path (Some branch) w1)
                = Returned (ContentFile file)
                /\ file_sha file = s)) in
  resolveContent content url w = (Returned fileContent, w1) ->
  exists (before : list Call) (sha_property : list (string * JsVal)),
    calls (snd result)
    = (calls w ++ before
       ++ [GithubCall address
             (mkOptions (Some PUT)
                (Some (JsObject ([("message", JsString message);
                                  ("content", JsString (base64_encode fileContent));
                                  ("branch", JsString branch)] ++ sha_property))))])%list
    /\ (forall c, In c before -> call_method c = None)
    /\ List.length (filter is_write (skipn (List.length (calls w)) (calls (snd result)))) = 1
    /\ (forall s : string, sha_property = [("sha", JsString s)] <-> known s)
    /\ (sha_property = [] <-> forall s : string, ~ known s).
Proof.
  intros address result known Hc. subst address result.
  destruct (resolveContent_calls content url w) as (fetches & Hcalls & _ & Hfetch).
  rewrite Hc in Hcalls. cbn [snd] in Hcalls.
  pose proof (resolveSha_run owner repo path branch sha w1) as Hs. cbn zeta in Hs.
  assert (Hnone : forall reads,
             (forall c, In c reads -> call_method c = None) ->
             forall c, In c (fetches ++ reads)%list -> call_method c = None).
  { intros reads Hr c Hin. apply in_app_or in Hin. destruct Hin as [Hin|Hin]; [|auto].
    destruct (Hfetch c Hin) as (u & ->). reflexivity. }
  assert (Hshape : forall (reads : list Call) (cur : option string) (w2 : World),
             resolveSha owner repo path branch sha w1 = (Returned cur, w2) ->
             calls w2 = (calls w1 ++ reads)%list ->
             (forall c, In c reads -> call_method c = None) ->
             (forall s, (if truthy cur then [("sha", optional_string cur)] else [])
                        = [("sha", JsString s)] <-> known s) ->
             ((if truthy cur then [("sha", optional_string cur)] else []) = []
              <-> forall s, ~ known s) ->
             exists (before : list Call) (sha_property : list (string * JsVal)),
               calls (snd (createOrUpdateFile owner repo path content url message branch sha w))
               = (calls w ++ before
                  ++ [GithubCall (api owner repo ("/contents/" ++ path))
                        (mkOptions (Some PUT)
                           (Some (JsObject
                                    ([("message", JsString message);
                                      ("content", JsString (base64_encode fileContent));
                                      ("branch", JsString branch)] ++ sha_property))))])%list
               /\ (forall c, In c before -> call_method c = None)
               /\ List.length
                    (filter is_write
                       (skipn (List.length (calls w))
                          (calls (snd (createOrUpdateFile owner repo path content url
                                         message branch sha w))))) = 1
               /\ (forall s : string, sha_property = [("sha", JsString s)] <-> known s)
               /\ (sha_property = [] <-> forall s : string, ~ known s)).
  { intros reads cur w2 Hrun Hw2 Hreads Hsome Hnil.
    exists (fetches ++ reads)%list,
      (if truthy cur then [("sha", optional_string cur)] else []).
    rewrite (createOrUpdateFile_run _ _ _ _ _ _ _ _ _ _ _ _ _ Hc Hrun).
    cbn [snd calls]. rewrite Hw2, Hcalls, <- !app_assoc.
    split; [reflexivity|]. split; [exact (Hnone _ Hreads)|]. split; [|split; [exact Hsome | exact Hnil]].
    rewrite skipn_app_length, app_assoc, filter_app, (filter_is_write_none _ (Hnone _ Hreads)).
    reflexivity. }
  destruct (truthy sha) eqn:Tsha.
  - (* the caller gave a sha *)
    destruct sha as [[|c0 s0]|]; try discriminate Tsha.
    apply (Hshape [] _ _ Hs); [now rewrite app_nil_r | intros c [] | |]; cbn.
    + intros s; split.
      * intros [= <-]. split; [discriminate | now left].
      * intros [_ [[= <-]|[F _]]]; [reflexivity | discriminate F].
    + split; [discriminate|]. intros H. exfalso.
      apply (H (String c0 s0)). split; [discriminate | now left].
  - (* no sha: the file is read first *)
    assert (Hnot : forall s, s <> EmptyString -> sha <> Some s).
    { intros s Hne ->. rewrite (truthy_some _ Hne) in Tsha. discriminate. }
    assert (Hone : forall c, In c [GithubCall (read_address owner repo path branch) no_options] ->
                             call_method c = None).
    { intros c [<-|[]]. reflexivity. }
    destruct (fst (getFileContents owner repo path (Some branch) w1))
      as [[file|entries]|e] eqn:Hread.
    + apply (Hshape _ _ _ Hs eq_refl Hone); cbn [truthy optional_string].
      * intros s. destruct (file_sha file) as [|c0 s0] eqn:Hfile; cbn; split.
        -- discriminate.
        -- intros [Hne [Hgiven|(_ & file' & [= <-] & Hs')]];
             [now apply Hnot in Hgiven | congruence].
        -- intros [= <-]. split; [discriminate|]. right. split; [reflexivity|].
           exists file. split; [reflexivity | exact Hfile].
        -- intros [Hne [Hgiven|(_ & file' & [= <-] & Hs')]];
             [now apply Hnot in Hgiven | congruence].
      * destruct (file_sha file) as [|c0 s0] eqn:Hfile; cbn; split.
        -- intros _ s [Hne [Hgiven|(_ & file' & [= <-] & Hs')]];
             [now apply Hnot in Hgiven | congruence].
        -- reflexivity.
        -- discriminate.
        -- intros H. exfalso. apply (H (String c0 s0)). split; [discriminate|].
           right. split; [reflexivity|]. exists file. split; [reflexivity | exact Hfile].
    + apply (Hshape _ _ _ Hs eq_refl Hone); rewrite Tsha.
      * intros s; split; [discriminate|].
        intros [Hne [Hgiven|(_ & file' & F & _)]]; [now apply Hnot in Hgiven | discriminate F].
      * split; [|reflexivity].
        intros _ s [Hne [Hgiven|(_ & file' & F & _)]];
          [now apply Hnot in Hgiven | discriminate F].
    + apply (Hshape _ _ _ Hs eq_refl Hone); rewrite Tsha.
      * intros s; split; [discriminate|].
        intros [Hne [Hgiven|(_ & file' & F & _)]]; [now apply Hnot in Hgiven | discriminate F].
      * split; [|reflexivity].
        intros _ s [Hne [Hgiven|(_ & file' & F & _)]];
          [now apply Hnot in Hgiven | discriminate F].
Qed.


(** C9, as the code has it.  The caller giving a [sha] that is not the empty
    string, [createOrUpdateFile] does not read the file: once the content is
    resolved, the write is the only call it issues, with the given [sha] in
    its body, and the calls before it are at most the fetch of the document,
    none of them a request to the hosting API. *)
Theorem createOrUpdateFile_skips_the_read_when_a_sha_is_given
    (owner repo path : string) (content url : option string)
    (message branch sha : string) (w w1 : World) (fileContent : string) :
  let address := api owner repo ("/contents/" ++ path) in
  let options :=
    mkOptions (Some PUT)
      (Some (JsObject [("message", JsString message);
                       ("content", JsString (base64_encode fileContent));
                       ("branch", JsString branch);
                       ("sha", JsString sha)])) in
  sha <> EmptyString ->
  resolveContent content url w = (Returned fileContent, w1) ->
  createOrUpdateFile owner repo path content url message branch (Some sha) w
  = (validated GitHubCreateUpdateFileResponseSchema "GitHubCreateUpdateFileResponseSchema"
       (github (calls w1) address options),
     mkWorld (calls w1 ++ [GithubCall address options]) (console w1))
  /\ exists fetches : list Call,
      calls w1 = (calls w ++ fetches)%list
      /\ forall c, In c fetches -> exists u, c = FetchCall u.
Proof.
  intros address options Hsha Hc. subst address options. split.
  - pose proof (resolveSha_run owner repo path branch (Some sha) w1) as Hs.
    cbn zeta in Hs. rewrite (truthy_some _ Hsha) in Hs.
    rewrite (createOrUpdateFile_run _ _ _ _ _ _ _ _ _ _ _ _ _ Hc Hs).
    rewrite (truthy_some _ Hsha). reflexivity.
  - destruct (resolveContent_calls content url w) as (fetches & Hcalls & _ & Hfetch).
    rewrite Hc in Hcalls. now exists fetches.
Qed.

End Properties.

(** * The scenarios, run *)

Lemma prefix_app (e b : string) : String.prefix e (e ++ b) = true.
Proof.
  induction e as [|c e IH]; simpl; [now destruct b|].
  destruct (ascii_dec c c) as [_|F]; [exact IH | contradiction].
Qed.

Lemma occurs_contains (e s : string) : occurs e s -> contains e s = true.
Proof.
  assert (Hunfold : forall s, contains e s
                               = String.prefix e s
                                 || match s with
                                    | EmptyString => false
                                    | String _ t => contains e t
                                    end).
  { intros [|c t]; reflexivity. }
  intros (a & b & ->). induction a as [|c a IH].
  - cbn [append]. now rewrite Hunfold, prefix_app.
  - cbn [append]. rewrite Hunfold, IH. apply orb_true_r.
Qed.

Lemma sample_api_honours_forced_update (existing : option JsVal) :
  @honours_forced_update (Scenario.collaborators (Scenario.remote existing)).
Proof.
  intros history url sha response reference H P.
  cbn in H. injection H as <-. cbn in P. injection P as <-. reflexivity.
Qed.

(** C1 on the sample repository: the push of two edits to [main]. *)
Lemma pushFiles_issues_four_calls_on_the_sample :
  @pushFiles Scenario.hub "o" "r" "main" Scenario.edits "msg" Scenario.start
  = (Returned (mkReference "refs/heads/main" "k1"),
     mkWorld [Scenario.ReadHead; Scenario.BuildTree; Scenario.BuildCommit; Scenario.UpdateRef]
       [])
  /\ "k1" = "k1"
  /\ List.length (map blob_entry Scenario.edits) = 2.
Proof.
  exact (pushFiles_issues_four_calls (collaborators := Scenario.hub)
           "o" "r" "main" Scenario.edits "msg" Scenario.start
           (Scenario.reference_json "refs/heads/main" "c0")
           (JsObject [("sha", JsString "t1"); ("url", JsString "")])
           (JsObject [("sha", JsString "k1"); ("tree", JsString "t1");
                      ("message", JsString "")])
           (Scenario.reference_json "refs/heads/main" "k1")
           (mkReference "refs/heads/main" "c0")
           (mkReference "refs/heads/main" "k1")
           (mkTree "t1" "")
           (mkCommit "k1" "t1" [] "")
           (sample_api_honours_forced_update None)
           eq_refl eq_refl eq_refl eq_refl eq_refl eq_refl eq_refl eq_refl).
Defined.

(** C5 on the sample repository, the API failing the tree creation. *)
Lemma pushFiles_stops_when_the_tree_creation_fails :
  fst (@pushFiles Scenario.broken_hub "o" "r" "main" Scenario.edits "msg" Scenario.start)
  = Thrown Scenario.server_error
  /\ calls (snd (@pushFiles Scenario.broken_hub "o" "r" "main" Scenario.edits "msg"
                   Scenario.start))
     = [Scenario.ReadHead; Scenario.BuildTree]
  /\ List.length [Scenario.ReadHead; Scenario.BuildTree] = 2
  /\ map call_method [Scenario.ReadHead; Scenario.BuildTree] = [None; Some POST].
Proof.
  exact (pushFiles_stops_at_the_first_failure (collaborators := Scenario.broken_hub)
           "o" "r" "main" Scenario.edits "msg" Scenario.start 1
           (api "o" "r" "/git/trees")
           (mkOptions (Some POST)
              (Some (JsObject [("tree", JsArray (map blob_entry Scenario.edits));
                               ("base_tree", JsString "c0")])))
           Scenario.server_error eq_refl eq_refl).
Defined.

(** C2 on the page with one block. *)
Lemma resolveContent_takes_the_block_of_the_sample_page :
  @resolveContent Scenario.hub None (Some "https://example.org/one") Scenario.start
  = (Returned "1 < 2", mkWorld [FetchCall "https://example.org/one"] []).
Proof.
  exact (proj2 (resolveContent_takes_the_first_code_region (collaborators := Scenario.hub)
                  "https://example.org/one" Scenario.start Scenario.one_block eq_refl)
           "1 &lt; 2" [] eq_refl).
Defined.

(** C2 as the specification states it fails on the page with two blocks: the
    resolver returns the first block and throws nothing. *)
Lemma resolveContent_accepts_a_page_with_two_blocks :
  code_regions Scenario.two_blocks = ["first"; "second"]
  /\ @resolveContent Scenario.hub None (Some "https://example.org/two") Scenario.start
     = (Returned "first", mkWorld [FetchCall "https://example.org/two"] []).
Proof. split; reflexivity. Qed.

(** C3 as the specification states it fails when both arguments are given:
    the content is taken, the document is never fetched, and the call goes
    on to read and write the file. *)
Lemma resolveContent_accepts_both_sources :
  @resolveContent Scenario.hub (Some "X") (Some "https://example.org/one") Scenario.start
  = (Returned "X", Scenario.start)
  /\ @createOrUpdateFile Scenario.hub "o" "r" "a.txt" (Some "X")
       (Some "https://example.org/one") "msg" "main" None Scenario.start
     = (Returned (Scenario.written "w1"),
        mkWorld [Scenario.PreRead; Scenario.PutFile []] [note]).
Proof. split; reflexivity. Qed.

(** C4 on the sample repository without the file: the read fails with 404,
    the note is logged and the file is written with no [sha]. *)
Lemma createOrUpdateFile_creates_the_missing_file :
  @createOrUpdateFile Scenario.hub "o" "r" "a.txt" (Some "X") None "msg" "main" None
    Scenario.start
  = (Returned (Scenario.written "w1"),
     mkWorld [Scenario.PreRead; Scenario.PutFile []] [note]).
Proof.
  exact (proj2 (createOrUpdateFile_reads_the_file_when_no_sha_is_given
                  (collaborators := Scenario.hub)
                  "o" "r" "a.txt" (Some "X") None "msg" "main"
                  Scenario.start Scenario.start "X" eq_refl)
           Scenario.not_found eq_refl).
Defined.

(** C6 on the sample repository with the file: one write, after the read. *)
Lemma createOrUpdateFile_writes_the_sample_file_once :
  exists (before : list Call) (sha_property : list (string * JsVal)),
    calls (snd (@createOrUpdateFile Scenario.hub_with_file "o" "r" "a.txt" (Some "X") None
                  "msg" "main" None Scenario.start))
    = (before ++ [Scenario.PutFile sha_property])%list
    /\ (forall c, In c before -> call_method c = None).
Proof.
  destruct (createOrUpdateFile_writes_once (collaborators := Scenario.hub_with_file)
              "o" "r" "a.txt" (Some "X") None "msg" "main" None
              Scenario.start Scenario.start "X" eq_refl)
    as (before & sha_property & Hcalls & Hbefore & _).
  exists before, sha_property. split; [exact Hcalls | exact Hbefore].
Defined.

(** C9 on the sample repository: a [sha] given, the write is the only call. *)
Lemma createOrUpdateFile_writes_at_once_with_the_given_sha :
  @createOrUpdateFile Scenario.hub_with_file "o" "r" "a.txt" (Some "X") None "msg" "main"
    (Some "f0") Scenario.start
  = (Returned (Scenario.written "w1"),
     mkWorld [Scenario.PutFile [("sha", JsString "f0")]] []).
Proof.
  refine (proj1 (createOrUpdateFile_skips_the_read_when_a_sha_is_given
                   (collaborators := Scenario.hub_with_file)
                   "o" "r" "a.txt" (Some "X") None "msg" "main" "f0"
                   Scenario.start Scenario.start "X" _ eq_refl)).
  discriminate.
Defined.

(** C9 as the specification states it fails when the [sha] given is the
    empty string: the file is read first, and the [sha] written is the one
    the read found. *)
Lemma createOrUpdateFile_reads_the_file_when_the_sha_is_empty :
  calls (snd (@createOrUpdateFile Scenario.hub_with_file "o" "r" "a.txt" (Some "X") None
                "msg" "main" (Some EmptyString) Scenario.start))
  = [Scenario.PreRead; Scenario.PutFile [("sha", JsString "f1")]].
Proof. reflexivity. Qed.

(** C10 on the sample repository: the content [aGk=] of the file comes back
    decoded. *)
Lemma getFileContents_decodes_the_sample_file :
  fst (@getFileContents Scenario.hub_with_file "o" "r" "a.txt" (Some "main") Scenario.start)
  = Returned (ContentFile (mkFile "f1" "hi" "a.txt")).
Proof.
  refine (proj1 (getFileContents_decodes_the_content_of_a_file
                   (collaborators := Scenario.hub_with_file)
                   "o" "r" "a.txt" (Some "main") Scenario.start
                   (Scenario.file_json "f1" "aGk=" "a.txt") eq_refl)
            (mkFile "f1" "aGk=" "a.txt") eq_refl _).
  discriminate.
Defined.

(** C8 on two sample texts: the six entities in a row, and a text that
    holds none of them. *)
Lemma decodeHTMLEntities_on_samples :
  decodeHTMLEntities "&quot;&amp;&apos;&lt;&gt;&#x27;"
  = String (ascii_of_nat 34) "&'<>'"
  /\ decodeHTMLEntities "R&D &nbsp; &copy;" = "R&D &nbsp; &copy;".
Proof.
  pose proof decodeHTMLEntities_replaces_the_six_entities as H.
  cbv zeta in H. destruct H as (Hrep & Hfix).
  assert (Hfree : forall s : string,
             forallb (fun e => negb (contains e s))
               ["&quot;"; "&amp;"; "&apos;"; "&lt;"; "&gt;"; "&#x27;"] = true ->
             decodeHTMLEntities s = s).
  { intros s Hs. apply Hfix. intros e v Hin Hocc. apply occurs_contains in Hocc.
    cbn [forallb] in Hs. rewrite !andb_true_iff in Hs.
    destruct Hs as (H1 & H2 & H3 & H4 & H5 & H6 & _).
    cbn [In] in Hin.
    destruct Hin as [E|[E|[E|[E|[E|[E|[]]]]]]]; injection E as <- <-;
      rewrite Hocc in *; discriminate. }
  split.
  - change (decodeHTMLEntities "&quot;&amp;&apos;&lt;&gt;&#x27;")
      with (decodeHTMLEntities (EmptyString ++ "&quot;" ++ "&amp;&apos;&lt;&gt;&#x27;")).
    rewrite (Hrep _ "&quot;" (String (ascii_of_nat 34) EmptyString) _ (or_introl eq_refl)).
    change (decodeHTMLEntities "&amp;&apos;&lt;&gt;&#x27;")
      with (decodeHTMLEntities (EmptyString ++ "&amp;" ++ "&apos;&lt;&gt;&#x27;")).
    rewrite (Hrep _ "&amp;" "&" _ (or_intror (or_introl eq_refl))).
    change (decodeHTMLEntities "&apos;&lt;&gt;&#x27;")
      with (decodeHTMLEntities (EmptyString ++ "&apos;" ++ "&lt;&gt;&#x27;")).
    rewrite (Hrep _ "&apos;" "'" _ (or_intror (or_intror (or_introl eq_refl)))).
    change (decodeHTMLEntities "&lt;&gt;&#x27;")
      with (decodeHTMLEntities (EmptyString ++ "&lt;" ++ "&gt;&#x27;")).
    rewrite (Hrep _ "&lt;" "<" _ (or_intror (or_intror (or_intror (or_introl eq_refl))))).
    change (decodeHTMLEntities "&gt;&#x27;")
      with (decodeHTMLEntities (EmptyString ++ "&gt;" ++ "&#x27;")).
    rewrite (Hrep _ "&gt;" ">" _
               (or_intror (or_intror (or_intror (or_intror (or_introl eq_refl)))))).
    change (decodeHTMLEntities "&#x27;")
      with (decodeHTMLEntities (EmptyString ++ "&#x27;" ++ EmptyString)).
    rewrite (Hrep _ "&#x27;" "'" _
               (or_intror (or_intror (or_intror (or_intror (or_intror (or_introl eq_refl))))))).
    rewrite (Hfree EmptyString eq_refl). reflexivity.
  - apply Hfree. reflexivity.
Defined.

(** * Further properties of the operations *)

Section Further.

Context {collaborators : Collaborators}.

Ltac simplify_addresses :=
  unfold api, blob_entry, optional_string, no_options in *; cbn [append map] in *.

Ltac step :=
  first [ rewrite bind_bind | rewrite githubRequest_bind | rewrite parse_bind
        | rewrite ret_bind | rewrite throw_bind | rewrite fetch_text_bind ];
  cbn [calls console]; rewrite <- ?app_assoc; cbn [app].

Ltac on_request :=
  match goal with
  | |- context [match github ?h ?u ?o with _ => _ end] =>
      let E := fresh "E" in destruct (github h u o) eqn:E
  end.

Ltac on_parse :=
  match goal with
  | |- context [match ?schema ?r with Some _ => _ | None => _ end] =>
      let P := fresh "P" in destruct (schema r) eqn:P
  end.

Ltac ended_with_rejection i :=
  cbn [fst snd calls]; rewrite skipn_app_length;
  destruct i as [|[|[|[|[|i]]]]]; cbn [nth_error firstn rejected_by];
  let Hnth := fresh "Hnth" in
  let He := fresh "He" in
  let Hr := fresh "Hr" in
  intros Hnth He Hr; try discriminate Hnth;
  injection Hnth as <- <-; rewrite ?app_nil_r in He; cbn [app] in He;
  try discriminate Hr;
  match goal with
  | E : github ?h ?u ?o = _, He : github ?h ?u ?o = _ |- _ =>
      rewrite E in He; try discriminate He; injection He as <-
  end;
  repeat match goal with
         | P : ?schema ?r = _, Hr : context [?schema ?r] |- _ => rewrite P in Hr
         end;
  try discriminate Hr; injection Hr as <-; split; reflexivity.

(** X1. An answer of the hosting API that the schema of its step rejects
    aborts the push like a failed request: the call it answers is the last
    one, and the outcome is the [ZodError] of that schema. *)
Theorem pushFiles_stops_at_the_first_invalid_answer
    (owner repo branch : string) (files : list FileOperation) (message : string)
    (w : World) (i : nat) (url : string) (options : RequestOptions)
    (response : JsVal) (schema : string) :
  let result := pushFiles owner repo branch files message w in
  let trace := skipn (List.length (calls w)) (calls (snd result)) in
  nth_error trace i = Some (GithubCall url options) ->
  github (calls w ++ firstn i trace) url options = Returned response ->
  rejected_by i response = Some schema ->
  fst result = Thrown (ZodError schema) /\ List.length trace = S i.
Proof.
  intros result trace. subst trace result.
  unfold pushFiles, createTree, createCommit, updateReference.
  simplify_addresses.
  step. on_request; [|ended_with_rejection i].
  step. on_parse; [|ended_with_rejection i].
  step. step. on_request; [|ended_with_rejection i].
  step. on_parse; [|ended_with_rejection i].
  step. step. on_request; [|ended_with_rejection i].
  step. on_parse; [|ended_with_rejection i].
  rewrite request_and_parse. cbn [calls console]. rewrite <- ?app_assoc. cbn [app].
  unfold validated. on_request; [on_parse|]; ended_with_rejection i.
Qed.


Ltac no_update_in_trace :=
  cbn [fst snd calls]; rewrite skipn_app_length;
  let c := fresh "c" in
  let Hin := fresh "Hin" in
  let Hm := fresh "Hm" in
  intros c Hin Hm; exfalso; cbn [In] in Hin;
  repeat match goal with
         | H : _ \/ _ |- _ => destruct H as [H|H]
         | H : _ = c |- _ => subst c; discriminate Hm
         | H : False |- _ => destruct H
         end.

(** X2. A push moves the branch only at the end of a complete run: when a
    reference update is among the calls of [pushFiles], the calls are the
    four of a complete push, the head was read and parsed, the tree and the
    commit were created and parsed, the commit was asked for with the head
    as its only parent, and the update asks for that commit. *)
Theorem pushFiles_updates_the_reference_only_to_its_own_commit
    (owner repo branch : string) (files : list FileOperation) (message : string)
    (w : World) :
  let result := pushFiles owner repo branch files message w in
  let trace := skipn (List.length (calls w)) (calls (snd result)) in
  forall c : Call,
    In c trace ->
    call_method c = Some PATCH ->
    exists (r0 t1 k1 : JsVal) (head : GitHubReference) (tree : GitHubTree)
           (commit : GitHubCommit),
      let reference := api owner repo ("/git/refs/heads/" ++ branch) in
      let tree_request :=
        mkOptions (Some POST)
          (Some (JsObject [("tree", JsArray (map blob_entry files));
                           ("base_tree", JsString (object_sha head))])) in
      let commit_request :=
        mkOptions (Some POST)
          (Some (JsObject [("message", JsString message);
                           ("tree", JsString (tree_sha tree));
                           ("parents", JsArray [JsString (object_sha head)])])) in
      let update_request :=
        mkOptions (Some PATCH)
          (Some (JsObject [("sha", JsString (commit_sha commit));
                           ("force", JsBool true)])) in
      let ReadHead := GithubCall reference no_options in
      let BuildTree := GithubCall (api owner repo "/git/trees") tree_request in
      let BuildCommit := GithubCall (api owner repo "/git/commits") commit_request in
      github (calls w) reference no_options = Returned r0
      /\ GitHubReferenceSchema r0 = Some head
      /\ github (calls w ++ [ReadHead]) (api owner repo "/git/trees") tree_request
         = Returned t1
      /\ GitHubTreeSchema t1 = Some tree
      /\ github (calls w ++ [ReadHead; BuildTree]) (api owner repo "/git/commits")
           commit_request
         = Returned k1
      /\ GitHubCommitSchema k1 = Some commit
      /\ c = GithubCall reference update_request
      /\ trace = [ReadHead; BuildTree; BuildCommit; c].
Proof.
  intros result trace. subst trace result.
  unfold pushFiles, createTree, createCommit, updateReference.
  simplify_addresses.
  step. on_request; [|no_update_in_trace].
  step. on_parse; [|no_update_in_trace].
  step. step. on_request; [|no_update_in_trace].
  step. on_parse; [|no_update_in_trace].
  step. step. on_request; [|no_update_in_trace].
  step. on_parse; [|no_update_in_trace].
  rewrite request_and_parse. cbn [fst snd calls console]. rewrite <- ?app_assoc. cbn [app].
  rewrite skipn_app_length. intros c Hin Hm.
  match goal with
  | E0 : github (calls w) _ _ = Returned ?r0, P0 : GitHubReferenceSchema ?r0 = Some ?head,
    E1 : github _ _ _ = Returned ?t1, P1 : GitHubTreeSchema ?t1 = Some ?tree,
    E2 : github _ _ _ = Returned ?k1, P2 : GitHubCommitSchema ?k1 = Some ?commit |- _ =>
      exists r0, t1, k1, head, tree, commit
  end.
  cbn zeta. simplify_addresses.
  cbn [In] in Hin. destruct Hin as [<-|[<-|[<-|[<-|[]]]]]; try discriminate Hm.
  repeat split; assumption || reflexivity.
Qed.

(** X3. A push logs nothing, issues at least the read of the head and at
    most four calls, and returns a reference only after all four: it never
    reports success without having asked for the reference update. *)
Theorem pushFiles_succeeds_only_after_four_calls
    (owner repo branch : string) (files : list FileOperation) (message : string)
    (w : World) :
  let result := pushFiles owner repo branch files message w in
  let trace := skipn (List.length (calls w)) (calls (snd result)) in
  console (snd result) = console w
  /\ calls (snd result) = (calls w ++ trace)%list
  /\ 1 <= List.length trace <= 4
  /\ (forall reference : GitHubReference,
         fst result = Returned reference ->
         map call_method trace = [None; Some POST; Some POST; Some PATCH]).
Proof.
  intros result trace. subst trace result.
  unfold pushFiles, createTree, createCommit, updateReference.
  simplify_addresses.
  assert (Hend : forall (o : Outcome GitHubReference) (t : list Call),
             1 <= List.length t <= 4 ->
             (forall reference, o = Returned reference ->
                                map call_method t = [None; Some POST; Some POST; Some PATCH]) ->
             console (snd (o, mkWorld (calls w ++ t) (console w))) = console w
             /\ calls (snd (o, mkWorld (calls w ++ t) (console w))) =
                (calls w ++ skipn (List.length (calls w))
                                  (calls (snd (o, mkWorld (calls w ++ t) (console w)))))%list
             /\ 1 <= List.length (skipn (List.length (calls w))
                                    (calls (snd (o, mkWorld (calls w ++ t) (console w))))) <= 4
             /\ (forall reference,
                    fst (o, mkWorld (calls w ++ t) (console w)) = Returned reference ->
                    map call_method
                      (skipn (List.length (calls w))
                         (calls (snd (o, mkWorld (calls w ++ t) (console w)))))
                    = [None; Some POST; Some POST; Some PATCH])).
  { intros o t Hlen Hok. cbn [fst snd calls console]. rewrite skipn_app_length.
    repeat split; try reflexivity; try apply Hlen. exact Hok. }
  step. on_request; [|apply Hend; [cbn; lia | discriminate]].
  step. on_parse; [|apply Hend; [cbn; lia | discriminate]].
  step. step. on_request; [|apply Hend; [cbn; lia | discriminate]].
  step. on_parse; [|apply Hend; [cbn; lia | discriminate]].
  step. step. on_request; [|apply Hend; [cbn; lia | discriminate]].
  step. on_parse; [|apply Hend; [cbn; lia | discriminate]].
  rewrite request_and_parse. cbn [calls console]. rewrite <- ?app_assoc. cbn [app].
  apply Hend; [cbn; lia | reflexivity].
Qed.


Lemma getFileContents_outcome (owner repo path : string) (branch : option string) (w : World) :
  getFileContents owner repo path branch w
  = (match validated GitHubContentSchema "GitHubContentSchema"
             (github (calls w) (contents_address owner repo path branch) no_options) with
     | Returned (ContentFile f) =>
         Returned
           (if truthy_string (file_content f)
            then ContentFile (mkFile (file_sha f) (base64_decode (file_content f)) (file_path f))
            else ContentFile f)
     | Returned (ContentDirectory entries) => Returned (ContentDirectory entries)
     | Thrown e => Thrown e
     end,
     mkWorld (calls w ++ [GithubCall (contents_address owner repo path branch) no_options])
       (console w)).
Proof.
  destruct branch as [b|]; [apply getFileContents_run|].
  unfold getFileContents, contents_address, api, validated.
  step. on_request; [|reflexivity].
  step. on_parse; [|reflexivity].
  destruct g as [f|entries]; reflexivity.
Qed.

(** X4. [getFileContents] issues one request, with no method and no body, to
    the contents address of the path, followed by [?ref=<branch>] only when
    a branch is given and is not the empty string.  It fails in two ways
    only: with the error of the request, unchanged, or with the [ZodError] of
    [GitHubContentSchema] when the answer does not parse. *)
Theorem getFileContents_fails_on_the_request_or_on_the_schema
    (owner repo path : string) (branch : option string) (w : World) :
  let plain := api owner repo ("/contents/" ++ path) in
  exists address : string,
    snd (getFileContents owner repo path branch w)
    = mkWorld (calls w ++ [GithubCall address no_options]) (console w)
    /\ (address = plain ++ "?ref=" ++ match branch with Some b => b | None => EmptyString end
        /\ truthy branch = true
        \/ address = plain /\ truthy branch = false)
    /\ forall e : Error,
        fst (getFileContents owner repo path branch w) = Thrown e
        <-> (github (calls w) address no_options = Thrown e
             \/ exists response,
                 github (calls w) address no_options = Returned response
                 /\ GitHubContentSchema response = None
                 /\ e = ZodError "GitHubContentSchema").
Proof.
  intros plain. subst plain. exists (contents_address owner repo path branch).
  rewrite getFileContents_outcome. cbn [fst snd]. split; [reflexivity|]. split.
  - unfold contents_address, read_address.
    destruct branch as [[|c b]|]; cbn; auto.
  - intros e. unfold validated.
    destruct (github _ _ _) as [response|e0].
    + destruct (GitHubContentSchema response) as [[f|entries]|] eqn:P.
      * split; [discriminate|]. intros [F|(r & [= <-] & F & _)]; [discriminate | congruence].
      * split; [discriminate|]. intros [F|(r & [= <-] & F & _)]; [discriminate | congruence].
      * split.
        -- intros [= <-]. right. exists response. auto.
        -- intros [F|(r & _ & _ & ->)]; [discriminate | reflexivity].
    + split.
      * intros [= <-]. now left.
      * intros [[= <-]|(r & F & _)]; [reflexivity | discriminate].
Qed.

(** X5. Decoding touches the content only: the single-file record
    [getFileContents] returns is the record the schema parsed, with the same
    [sha] and the same path; its content is the decoded content when the
    parsed content is not empty, and the record is returned as it is when
    the content is empty. *)
Theorem getFileContents_keeps_the_sha_and_the_path
    (owner repo path : string) (branch : option string) (w : World)
    (file : GitHubFileContent) :
  fst (getFileContents owner repo path branch w) = Returned (ContentFile file) ->
  exists (response : JsVal) (parsed : GitHubFileContent),
    github (calls w) (contents_address owner repo path branch) no_options = Returned response
    /\ GitHubContentSchema response = Some (ContentFile parsed)
    /\ file_sha file = file_sha parsed
    /\ file_path file = file_path parsed
    /\ (file_content parsed = EmptyString -> file = parsed)
    /\ (file_content parsed <> EmptyString ->
        file_content file = base64_decode (file_content parsed)).
Proof.
  rewrite getFileContents_outcome. cbn [fst]. unfold validated.
  destruct (github _ _ _) as [response|e0] eqn:E; [|discriminate].
  destruct (GitHubContentSchema response) as [[f|entries]|] eqn:P; try discriminate.
  intros H. exists response, f. split; [reflexivity|]. split; [exact P|].
  destruct (file_content f) as [|c t] eqn:C; cbn [truthy_string] in H; injection H as <-;
    cbn; repeat split; auto; try congruence.
Qed.


(** X6. The resolver fails in three ways only: neither argument is given;
    the fetch of the document throws, and its error is the outcome
    unchanged; or the document holds no code region.  It never fails when a
    content is given. *)
Theorem resolveContent_fails_in_three_ways
    (content url : option string) (w : World) (e : Error) :
  fst (resolveContent content url w) = Thrown e
  <-> content = None
      /\ (url = None
          /\ e = JsError "Either 'content' or 'published_artifact_url' must be provided"
          \/ exists u : string,
              url = Some u
              /\ (web (calls w) u = Thrown e
                  \/ exists html : string,
                      web (calls w) u = Returned html
                      /\ code_regions html = []
                      /\ e = JsError
                               "Could not find a singular <code> block in the published artifact")).
Proof.
  destruct content as [c|].
  { cbn. split; [discriminate | intros [F _]; discriminate F]. }
  destruct url as [u|].
  2:{ cbn. split.
      - intros [= <-]. split; [reflexivity|]. now left.
      - intros [_ [[_ ->]|(u & F & _)]]; [reflexivity | discriminate F]. }
  unfold resolveContent. rewrite fetch_text_bind.
  destruct (web (calls w) u) as [html|e0] eqn:W.
  - pose proof (code_regions_of_match html) as R.
    destruct (String_match html) as [[[i m] g]|]; cbn [fst].
    + destruct R as (others & R). split; [discriminate|].
      intros [_ [[F _]|(u' & [= <-] & [F|(html' & F & Hnil & _)])]];
        [ discriminate F
        | rewrite W in F; discriminate F
        | rewrite W in F; injection F as <-; rewrite R in Hnil; discriminate Hnil ].
    + split.
      * intros [= <-]. split; [reflexivity|]. right. exists u. split; [reflexivity|].
        right. exists html. auto.
      * intros [_ [[F _]|(u' & [= <-] & [F|(html' & _ & _ & ->)])]];
          [discriminate F | rewrite W in F; discriminate F | reflexivity].
  - cbn [fst]. split.
    + intros [= <-]. split; [reflexivity|]. right. exists u. split; [reflexivity|]. now left.
    + intros [_ [[F _]|(u' & [= <-] & [F|(html' & F & _)])]];
        [discriminate F | rewrite W in F; now injection F as <- | rewrite W in F; discriminate F].
Qed.

(** X7. Without a content to write, nothing is written: when the resolver
    throws, [createOrUpdateFile] throws the same error, logs nothing, and
    has issued no request to the hosting API, its only possible call being
    the fetch of the document. *)
Theorem createOrUpdateFile_issues_no_request_without_content
    (owner repo path : string) (content url : option string)
    (message branch : string) (sha : option string) (w : World) (e : Error) :
  let result := createOrUpdateFile owner repo path content url message branch sha w in
  fst (resolveContent content url w) = Thrown e ->
  fst result = Thrown e
  /\ console (snd result) = console w
  /\ exists fetches : list Call,
      calls (snd result) = (calls w ++ fetches)%list
      /\ forall c, In c fetches -> exists u, c = FetchCall u.
Proof.
  intros result H. subst result.
  destruct (resolveContent_calls content url w) as (fetches & Hcalls & Hconsole & Hfetch).
  destruct (resolveContent content url w) as [[fc|e0] w1] eqn:Hc; cbn [fst snd] in *;
    [discriminate H|].
  injection H as <-.
  assert (Hrun : createOrUpdateFile owner repo path content url message branch sha w
                 = (Thrown e0, w1)).
  { unfold createOrUpdateFile. unfold bind at 1. now rewrite Hc. }
  rewrite Hrun. cbn [fst snd]. split; [reflexivity|]. split; [exact Hconsole|].
  now exists fetches.
Qed.

(** X8. The outcome of [createOrUpdateFile] is the outcome of its write:
    the content once resolved, the last call is the write, and the call
    returns what the schema makes of the answer to it, or throws the error
    of the write unchanged, whatever the read before it did. *)
Theorem createOrUpdateFile_returns_the_outcome_of_the_write
    (owner repo path : string) (content url : option string)
    (message branch : string) (sha : option string) (w w1 : World)
    (fileContent : string) :
  let result := createOrUpdateFile owner repo path content url message branch sha w in
  resolveContent content url w = (Returned fileContent, w1) ->
  exists (history : list Call) (options : RequestOptions),
    calls (snd result)
    = (history ++ [GithubCall (api owner repo ("/contents/" ++ path)) options])%list
    /\ method options = Some PUT
    /\ fst result
       = validated GitHubCreateUpdateFileResponseSchema
           "GitHubCreateUpdateFileResponseSchema"
           (github history (api owner repo ("/contents/" ++ path)) options).
Proof.
  intros result Hc. subst result.
  destruct (resolveSha owner repo path branch sha w1) as [[cur|e] w2] eqn:Hs.
  - rewrite (createOrUpdateFile_run _ _ _ _ _ _ _ _ _ _ _ _ _ Hc Hs).
    eexists (calls w2), _. cbn [fst snd calls]. split; [reflexivity|]. split; reflexivity.
  - exfalso. rewrite resolveSha_run in Hs. cbn zeta in Hs.
    destruct (truthy sha); [discriminate Hs|].
    destruct (fst (getFileContents owner repo path (Some branch) w1)) as [[f|entries]|e0];
      discriminate Hs.
Qed.

(** X9. When the read of the existing file returns a directory listing, no
    [sha] is taken from it: with no [sha] given, the write goes out without
    one and nothing is logged. *)
Theorem createOrUpdateFile_takes_no_sha_from_a_directory
    (owner repo path : string) (content url : option string)
    (message branch : string) (w w1 : World) (fileContent : string)
    (entries : list GitHubDirectoryContent) :
  let address := api owner repo ("/contents/" ++ path) in
  let PreRead := GithubCall (read_address owner repo path branch) no_options in
  let options := write_options message fileContent branch [] in
  resolveContent content url w = (Returned fileContent, w1) ->
  fst (getFileContents owner repo path (Some branch) w1)
  = Returned (ContentDirectory entries) ->
  createOrUpdateFile owner repo path content url message branch None w
  = (validated GitHubCreateUpdateFileResponseSchema "GitHubCreateUpdateFileResponseSchema"
       (github (calls w1 ++ [PreRead]) address options),
     mkWorld (calls w1 ++ [PreRead; GithubCall address options]) (console w1)).
Proof.
  intros address PreRead options Hc Hread. subst address PreRead options.
  pose proof (resolveSha_run owner repo path branch None w1) as Hs.
  cbn zeta in Hs. cbn [truthy] in Hs. rewrite Hread in Hs.
  rewrite (createOrUpdateFile_run _ _ _ _ _ _ _ _ _ _ _ _ _ Hc Hs).
  cbn [snd calls console truthy]. rewrite <- app_assoc. reflexivity.
Qed.


(** X10. [createOrUpdateFile] issues at most three calls, in this order: the
    fetch of the document, only when no content is given; the read of the
    existing file, only when no usable [sha] is given; the write.  Without
    the write there is no read either and the call has thrown.  It logs at
    most the note of the failed read. *)
Theorem createOrUpdateFile_issues_at_most_three_calls
    (owner repo path : string) (content url : option string)
    (message branch : string) (sha : option string) (w : World) :
  let result := createOrUpdateFile owner repo path content url message branch sha w in
  exists fetches reads writes : list Call,
    calls (snd result) = (calls w ++ fetches ++ reads ++ writes)%list
    /\ (fetches = []
        \/ exists u : string, content = None /\ url = Some u /\ fetches = [FetchCall u])
    /\ (reads = []
        \/ truthy sha = false
           /\ reads = [GithubCall (read_address owner repo path branch) no_options])
    /\ (writes = []
        \/ exists options : RequestOptions,
            method options = Some PUT
            /\ writes = [GithubCall (api owner repo ("/contents/" ++ path)) options])
    /\ (writes = [] -> reads = [] /\ exists e : Error, fst result = Thrown e)
    /\ (console (snd result) = console w
        \/ reads <> [] /\ console (snd result) = (console w ++ [note])%list).
Proof.
  intros result. subst result.
  assert (Hwritten : forall (fileContent : string) (w1 : World) (fetches : list Call),
             resolveContent content url w = (Returned fileContent, w1) ->
             calls w1 = (calls w ++ fetches)%list ->
             console w1 = console w ->
             (fetches = []
              \/ exists u : string, content = None /\ url = Some u /\ fetches = [FetchCall u]) ->
             exists fetches reads writes : list Call,
               calls (snd (createOrUpdateFile owner repo path content url message branch sha w))
               = (calls w ++ fetches ++ reads ++ writes)%list
               /\ (fetches = []
                   \/ exists u : string,
                       content = None /\ url = Some u /\ fetches = [FetchCall u])
               /\ (reads = []
                   \/ truthy sha = false
                      /\ reads = [GithubCall (read_address owner repo path branch) no_options])
               /\ (writes = []
                   \/ exists options : RequestOptions,
                       method options = Some PUT
                       /\ writes = [GithubCall (api owner repo ("/contents/" ++ path)) options])
               /\ (writes = [] ->
                   reads = []
                   /\ exists e : Error,
                       fst (createOrUpdateFile owner repo path content url message branch
                              sha w) = Thrown e)
               /\ (console (snd (createOrUpdateFile owner repo path content url message
                                   branch sha w)) = console w
                   \/ reads <> []
                      /\ console (snd (createOrUpdateFile owner repo path content url message
                                         branch sha w)) = (console w ++ [note])%list)).
  { intros fileContent w1 fetches Hc Hcalls Hconsole Hfetches.
    pose proof (resolveSha_run owner repo path branch sha w1) as Hs. cbn zeta in Hs.
    destruct (truthy sha) eqn:Tsha.
    - rewrite (createOrUpdateFile_run _ _ _ _ _ _ _ _ _ _ _ _ _ Hc Hs).
      exists fetches, []. eexists [_]. cbn [fst snd calls console app].
      rewrite Hcalls, Hconsole, <- app_assoc.
      split; [reflexivity|]. split; [exact Hfetches|]. split; [now left|].
      split; [right; eexists; refine (conj _ eq_refl); reflexivity|].
      split; [discriminate | now left].
    - destruct (fst (getFileContents owner repo path (Some branch) w1))
        as [[f|entries]|e];
        rewrite (createOrUpdateFile_run _ _ _ _ _ _ _ _ _ _ _ _ _ Hc Hs);
        exists fetches; eexists [_]; eexists [_]; cbn [fst snd calls console app];
        rewrite Hcalls, Hconsole, <- !app_assoc; cbn [app];
        (split; [reflexivity|]); (split; [exact Hfetches|]);
        (split; [right; split; reflexivity|]);
        (split; [right; eexists; refine (conj _ eq_refl); reflexivity|]);
        (split; [discriminate|]);
        solve [left; reflexivity | right; split; [discriminate | reflexivity]]. }
  assert (Hfailed : forall (e : Error) (w1 : World) (fetches : list Call),
             resolveContent content url w = (Thrown e, w1) ->
             calls w1 = (calls w ++ fetches)%list ->
             console w1 = console w ->
             (fetches = []
              \/ exists u : string, content = None /\ url = Some u /\ fetches = [FetchCall u]) ->
             exists fetches reads writes : list Call,
               calls (snd (createOrUpdateFile owner repo path content url message branch sha w))
               = (calls w ++ fetches ++ reads ++ writes)%list
               /\ (fetches = []
                   \/ exists u : string,
                       content = None /\ url = Some u /\ fetches = [FetchCall u])
               /\ (reads = []
                   \/ truthy sha = false
                      /\ reads = [GithubCall (read_address owner repo path branch) no_options])
               /\ (writes = []
                   \/ exists options : RequestOptions,
                       method options = Some PUT
                       /\ writes = [GithubCall (api owner repo ("/contents/" ++ path)) options])
               /\ (writes = [] ->
                   reads = []
                   /\ exists e : Error,
                       fst (createOrUpdateFile owner repo path content url message branch
                              sha w) = Thrown e)
               /\ (console (snd (createOrUpdateFile owner repo path content url message
                                   branch sha w)) = console w
                   \/ reads <> []
                      /\ console (snd (createOrUpdateFile owner repo path content url message
                                         branch sha w)) = (console w ++ [note])%list)).
  { intros e w1 fetches Hc Hcalls Hconsole Hfetches.
    assert (Hrun : createOrUpdateFile owner repo path content url message branch sha w
                   = (Thrown e, w1)).
    { unfold createOrUpdateFile. unfold bind at 1. now rewrite Hc. }
    rewrite Hrun. exists fetches, [], []. cbn [fst snd app].
    rewrite Hcalls, Hconsole, !app_nil_r.
    repeat split; auto. now exists e. }
  destruct content as [c|].
  { apply (Hwritten c w []); [reflexivity | cbn; now rewrite app_nil_r | reflexivity | now left]. }
  destruct url as [u|].
  2:{ eapply (Hfailed _ w []); [reflexivity | cbn; now rewrite app_nil_r | reflexivity | now left]. }
  assert (Hu : [FetchCall u] = [] \/ exists u0 : string,
               @None string = None /\ Some u = Some u0 /\ [FetchCall u] = [FetchCall u0]).
  { right. now exists u. }
  destruct (resolveContent None (Some u) w) as [[fc|e] w1] eqn:Hc.
  - apply (Hwritten fc w1 [FetchCall u]); auto.
    + pose proof (f_equal snd Hc) as Hw. cbn [snd] in Hw. rewrite <- Hw.
      unfold resolveContent. rewrite fetch_text_bind.
      destruct (web (calls w) u) as [html|e0]; [|reflexivity].
      destruct (String_match html) as [[[i m] g]|]; reflexivity.
    + pose proof (f_equal snd Hc) as Hw. cbn [snd] in Hw. rewrite <- Hw.
      unfold resolveContent. rewrite fetch_text_bind.
      destruct (web (calls w) u) as [html|e0]; [|reflexivity].
      destruct (String_match html) as [[[i m] g]|]; reflexivity.
  - apply (Hfailed e w1 [FetchCall u]); auto.
    + pose proof (f_equal snd Hc) as Hw. cbn [snd] in Hw. rewrite <- Hw.
      unfold resolveContent. rewrite fetch_text_bind.
      destruct (web (calls w) u) as [html|e0]; [|reflexivity].
      destruct (String_match html) as [[[i m] g]|]; reflexivity.
    + pose proof (f_equal snd Hc) as Hw. cbn [snd] in Hw. rewrite <- Hw.
      unfold resolveContent. rewrite fetch_text_bind.
      destruct (web (calls w) u) as [html|e0]; [|reflexivity].
      destruct (String_match html) as [[[i m] g]|]; reflexivity.
Qed.

End Further.

(** * Further properties of the pure functions *)

(** ** The entity decoder *)

Lemma entity_values_are_single_characters (k v : string) :
  In (k, v) entities -> String.length v = 1.
Proof.
  unfold entities; simpl.
  intros [H|[H|[H|[H|[H|[H|[]]]]]]]; injection H as <- <-; reflexivity.
Qed.

Lemma entity_replacement_length (s m : string) :
  entity_match s = Some m ->
  String.length (entity_replacement m) <= String.length m.
Proof.
  intros H. destruct (entity_match_sound _ _ H) as (_ & _ & Hlen).
  unfold entity_replacement. destruct (lookup m entities) as [v|] eqn:L; [|lia].
  destruct (truthy_string v); [|lia].
  rewrite (entity_values_are_single_characters _ _ (lookup_In _ _ _ L)). lia.
Qed.

(** X11. Decoding never lengthens a text: the result of
    [decodeHTMLEntities] is at most as long as its argument. *)
Theorem decodeHTMLEntities_never_lengthens (str : string) :
  String.length (decodeHTMLEntities str) <= String.length str.
Proof.
  unfold decodeHTMLEntities.
  remember (String.length str) as n eqn:Hn. revert str Hn.
  induction n as [n IH] using lt_wf_ind. intros s Hn.
  destruct s as [|c t]; [simp replace_entities; cbn; lia|].
  destruct (entity_match (String c t)) as [m|] eqn:E.
  - destruct (entity_match_sound _ _ E) as (rest & Hs & Hlen).
    pose proof (entity_replacement_length _ _ E) as Hr.
    rewrite Hs in E. rewrite Hs, (replace_entities_hit _ _ E), string_length_app.
    assert (Hrest : String.length (replace_entities rest) <= String.length rest).
    { apply (IH (String.length rest)); [|reflexivity].
      subst n. rewrite Hs, string_length_app. lia. }
    subst n. rewrite Hs, string_length_app. lia.
  - rewrite (replace_entities_skip _ _ E). cbn [String.length].
    assert (Ht : String.length (replace_entities t) <= String.length t).
    { apply (IH (String.length t)); [subst n; cbn; lia | reflexivity]. }
    subst n. cbn [String.length]. lia.
Qed.

(** ** The code-block pattern *)

Lemma prefix_split (e s : string) :
  String.prefix e s = true -> exists post, s = e ++ post.
Proof.
  revert s; induction e as [|c e IH]; intros s H.
  - now exists s.
  - destruct s as [|c' s]; [discriminate|]. simpl in H.
    destruct (ascii_dec c c') as [<-|_]; [|discriminate].
    destruct (IH _ H) as (post & ->). now exists post.
Qed.

Lemma code_body_unfold (s : string) :
  code_body s
  = if String.prefix "</code>" s then Some ("</code>", EmptyString)
    else match s with
         | EmptyString => None
         | String c t =>
             match code_body t with
             | Some (m, g) => Some (String c m, String c g)
             | None => None
             end
         end.
Proof. destruct s; reflexivity. Qed.

(** The first match of the closing tag: no closing tag starts inside the
    captured text. *)
Lemma code_body_sound (s m g : string) :
  code_body s = Some (m, g) ->
  m = g ++ "</code>"
  /\ (exists post, s = m ++ post)
  /\ forall k, k < String.length g -> String.prefix "</code>" (string_drop k s) = false.
Proof.
  revert m g; induction s as [|c t IH]; intros m g H.
  - cbn in H. discriminate.
  - rewrite code_body_unfold in H.
    destruct (String.prefix "</code>" (String c t)) eqn:Hp.
    + injection H as <- <-. split; [reflexivity|]. split.
      * now apply prefix_split.
      * intros k Hk. cbn in Hk. lia.
    + destruct (code_body t) as [[m' g']|] eqn:B; [|discriminate].
      injection H as <- <-. destruct (IH _ _ eq_refl) as (-> & (post & ->) & Hmin).
      split; [reflexivity|]. split; [now exists post|].
      intros [|k] Hk; [exact Hp|]. cbn [string_drop]. apply Hmin. cbn in Hk. lia.
Qed.

Lemma not_occurs_in_empty (e : string) : e <> EmptyString -> ~ occurs e EmptyString.
Proof.
  intros He (a & b & H). destruct a; [destruct e; [now apply He | discriminate H] | discriminate H].
Qed.

Lemma no_closing_tag_before_the_first (g post : string) :
  (forall k, k < String.length g ->
             String.prefix "</code>" (string_drop k (g ++ "</code>" ++ post)) = false) ->
  ~ occurs "</code>" g.
Proof.
  intros Hmin (a & b & ->).
  specialize (Hmin (String.length a)).
  rewrite !string_app_assoc, string_drop_app in Hmin.
  rewrite prefix_app in Hmin.
  assert (String.length a < String.length (a ++ "</code>" ++ b)).
  { rewrite string_length_app. cbn. lia. }
  specialize (Hmin H). discriminate Hmin.
Qed.

Lemma code_open_sound (s m g : string) :
  code_open s = Some (m, g) ->
  exists attrs post,
    m = attrs ++ ">" ++ g ++ "</code>"
    /\ s = m ++ post
    /\ ~ occurs ">" attrs
    /\ ~ occurs "</code>" g.
Proof.
  revert m; induction s as [|c t IH]; intros m H; [discriminate H|].
  cbn [code_open] in H.
  destruct (Ascii.eqb_spec c ">") as [->|Hc].
  - destruct (code_body t) as [[mb gb]|] eqn:B; [|discriminate H].
    injection H as <- <-. destruct (code_body_sound _ _ _ B) as (-> & (post & ->) & Hmin).
    exists EmptyString, post. split; [reflexivity|]. split; [reflexivity|].
    split; [apply not_occurs_in_empty; discriminate|].
    apply (no_closing_tag_before_the_first _ post).
    rewrite <- string_app_assoc. exact Hmin.
  - destruct (code_open t) as [[m' g']|] eqn:O; [|discriminate H].
    injection H as <- <-.
    destruct (IH _ eq_refl) as (attrs & post & -> & -> & Hattrs & Hg).
    exists (String c attrs), post. split; [reflexivity|]. split; [reflexivity|].
    split; [|exact Hg].
    intros (a & b & Ha). destruct a as [|x a]; cbn in Ha; injection Ha as Hx Ha.
    + now apply Hc.
    + apply Hattrs. now exists a, b.
Qed.

Lemma code_match_sound (s m g : string) :
  code_match s = Some (m, g) ->
  exists attrs post,
    m = "<code" ++ attrs ++ ">" ++ g ++ "</code>"
    /\ s = m ++ post
    /\ ~ occurs ">" attrs
    /\ ~ occurs "</code>" g.
Proof.
  unfold code_match. destruct (String.prefix "<code" s) eqn:Hp; [|discriminate].
  destruct (prefix_split _ _ Hp) as (rest & ->).
  change (string_drop 5 ("<code" ++ rest)) with rest.
  destruct (code_open rest) as [[m' g']|] eqn:O; [|discriminate].
  intros [= <- <-].
  destruct (code_open_sound _ _ _ O) as (attrs & post & -> & -> & Hattrs & Hg).
  exists attrs, post. repeat split; auto.
Qed.

Lemma String_match_sound (html : string) (i : nat) (m g : string) :
  String_match html = Some (i, m, g) ->
  exists pre attrs post : string,
    html = pre ++ m ++ post
    /\ String.length pre = i
    /\ m = "<code" ++ attrs ++ ">" ++ g ++ "</code>"
    /\ ~ occurs ">" attrs
    /\ ~ occurs "</code>" g.
Proof.
  revert i; induction html as [|c t IH]; intros i H.
  - cbn in H. discriminate H.
  - unfold String_match in H; fold String_match in H.
    destruct (code_match (String c t)) as [[m0 g0]|] eqn:M.
    + injection H as <- <- <-.
      destruct (code_match_sound _ _ _ M) as (attrs & post & Hm & Hs & Hattrs & Hg).
      exists EmptyString, attrs, post. repeat split; auto.
    + destruct (String_match t) as [[[j m1] g1]|] eqn:S; [|discriminate H].
      injection H as <- <- <-.
      destruct (IH _ eq_refl) as (pre & attrs & post & -> & <- & Hm & Hattrs & Hg).
      exists (String c pre), attrs, post. repeat split; auto.
Qed.

(** X12. What [html.match] finds is a code element of the document: the
    text matched stands at the index reported, it is [<code], attributes
    without any [>], [>], the captured text and [</code>], and the captured
    text holds no closing tag, so that it ends at the first [</code>] after
    the opening tag. *)
Theorem String_match_finds_a_code_element (html : string) (i : nat) (m g : string) :
  String_match html = Some (i, m, g) ->
  exists pre attrs post : string,
    html = pre ++ m ++ post
    /\ String.length pre = i
    /\ m = "<code" ++ attrs ++ ">" ++ g ++ "</code>"
    /\ ~ occurs ">" attrs
    /\ ~ occurs "</code>" g.
Proof. exact (String_match_sound html i m g). Qed.

Lemma code_body_complete (c d : string) : code_body (c ++ "</code>" ++ d) <> None.
Proof.
  induction c as [|x c IH].
  - change (EmptyString ++ "</code>" ++ d) with ("</code>" ++ d).
    rewrite code_body_unfold, prefix_app. discriminate.
  - change (String x c ++ "</code>" ++ d) with (String x (c ++ "</code>" ++ d)).
    rewrite code_body_unfold.
    destruct (String.prefix "</code>" (String x (c ++ "</code>" ++ d))); [discriminate|].
    destruct (code_body (c ++ "</code>" ++ d)) as [[m g]|]; [discriminate | contradiction].
Qed.

Lemma code_open_complete (b c d : string) :
  code_open (b ++ ">" ++ c ++ "</code>" ++ d) <> None.
Proof.
  induction b as [|x b IH].
  - change (EmptyString ++ ">" ++ c ++ "</code>" ++ d)
      with (String ">" (c ++ "</code>" ++ d)).
    cbn [code_open]. rewrite Ascii.eqb_refl.
    pose proof (code_body_complete c d) as B.
    destruct (code_body (c ++ "</code>" ++ d)) as [[m g]|]; [discriminate | contradiction].
  - change (String x b ++ ">" ++ c ++ "</code>" ++ d)
      with (String x (b ++ ">" ++ c ++ "</code>" ++ d)).
    cbn [code_open].
    destruct (Ascii.eqb_spec x ">") as [->|Hx].
    + pose proof (code_body_complete (b ++ ">" ++ c) d) as B.
      rewrite !string_app_assoc in B.
      destruct (code_body (b ++ ">" ++ c ++ "</code>" ++ d)) as [[m g]|];
        [discriminate | contradiction].
    + destruct (code_open (b ++ ">" ++ c ++ "</code>" ++ d)) as [[m g]|];
        [discriminate | contradiction].
Qed.

Lemma String_match_complete (a b c d : string) :
  String_match (a ++ "<code" ++ b ++ ">" ++ c ++ "</code>" ++ d) <> None.
Proof.
  assert (Hhere : forall s, code_match s <> None -> String_match s <> None).
  { intros s H. destruct s as [|x s]; unfold String_match; fold String_match;
      (destruct (code_match _) as [[m g]|]; [discriminate | contradiction]). }
  induction a as [|x a IH].
  - apply Hhere. unfold code_match.
    change (EmptyString ++ "<code" ++ b ++ ">" ++ c ++ "</code>" ++ d)
      with ("<code" ++ (b ++ ">" ++ c ++ "</code>" ++ d)).
    rewrite prefix_app.
    change (string_drop 5 ("<code" ++ (b ++ ">" ++ c ++ "</code>" ++ d)))
      with (b ++ ">" ++ c ++ "</code>" ++ d).
    pose proof (code_open_complete b c d) as O.
    destruct (code_open (b ++ ">" ++ c ++ "</code>" ++ d)) as [[m g]|];
      [discriminate | contradiction].
  - change (String x a ++ "<code" ++ b ++ ">" ++ c ++ "</code>" ++ d)
      with (String x (a ++ "<code" ++ b ++ ">" ++ c ++ "</code>" ++ d)).
    unfold String_match; fold String_match.
    destruct (code_match _) as [[m g]|]; [discriminate|].
    destruct (String_match (a ++ "<code" ++ b ++ ">" ++ c ++ "</code>" ++ d))
      as [[[i m] g]|]; [discriminate | contradiction].
Qed.

(** ** The leftmost code element *)

Lemma string_drop_split (k : nat) (s : string) : exists x, s = x ++ string_drop k s.
Proof.
  revert s; induction k as [|k IH]; intros s.
  - now exists EmptyString.
  - destruct s as [|c t]; [now exists EmptyString|].
    destruct (IH t) as (x & Hx). exists (String c x). cbn. now rewrite <- Hx.
Qed.

Lemma string_drop_drop (a b : nat) (s : string) :
  string_drop (a + b) s = string_drop b (string_drop a s).
Proof.
  revert s; induction a as [|a IH]; intros s; [reflexivity|].
  destruct s as [|c t]; [now destruct b|]. apply IH.
Qed.

Lemma String_match_is_leftmost (html : string) (i : nat) (m g : string) :
  String_match html = Some (i, m, g) ->
  code_match (string_drop i html) = Some (m, g)
  /\ forall j, j < i -> code_match (string_drop j html) = None.
Proof.
  revert i; induction html as [|c t IH]; intros i H.
  - cbn in H. discriminate H.
  - unfold String_match in H; fold String_match in H.
    destruct (code_match (String c t)) as [[m0 g0]|] eqn:M.
    + injection H as <- <- <-. split; [exact M|]. intros j Hj. lia.
    + destruct (String_match t) as [[[k m1] g1]|] eqn:S; [|discriminate H].
      injection H as <- <- <-. destruct (IH _ eq_refl) as (Hk & Hbefore).
      split; [exact Hk|]. intros [|j] Hj; [exact M|]. apply Hbefore. lia.
Qed.

(** An opening [<code] that a code element follows starts a match. *)
Lemma code_match_before_a_match (s m g : string) (k : nat) :
  String.prefix "<code" s = true ->
  0 < k ->
  code_match (string_drop k s) = Some (m, g) ->
  code_match s <> None.
Proof.
  intros Hp Hk Hm. destruct (prefix_split _ _ Hp) as (rest & ->).
  destruct (code_match_sound _ _ _ Hm) as (attrs & post & -> & Hs & _).
  assert (Hk5 : 5 <= k).
  { destruct k as [|[|[|[|[|k]]]]]; try lia; cbn in Hs; discriminate Hs. }
  replace k with (5 + (k - 5)) in Hs by lia.
  rewrite string_drop_drop in Hs.
  change (string_drop 5 ("<code" ++ rest)) with rest in Hs.
  destruct (string_drop_split (k - 5) rest) as (x & Hx). rewrite Hs in Hx.
  unfold code_match. rewrite prefix_app.
  change (string_drop 5 ("<code" ++ rest)) with rest.
  pose proof (code_open_complete (x ++ "<code" ++ attrs) g post) as O.
  rewrite Hx. repeat rewrite string_app_assoc in O. repeat rewrite string_app_assoc.
  destruct (code_open (x ++ "<code" ++ attrs ++ ">" ++ g ++ "</code>" ++ post))
    as [[m' g']|]; [discriminate | contradiction].
Qed.

(** X13. The code element [html.match] finds is the one the first [<code]
    of the document opens: no [<code] stands before the index reported. *)
Theorem String_match_starts_at_the_first_opening_tag
    (html : string) (i : nat) (m g : string) :
  String_match html = Some (i, m, g) ->
  forall j : nat, j < i -> String.prefix "<code" (string_drop j html) = false.
Proof.
  intros H j Hj. destruct (String_match_is_leftmost _ _ _ _ H) as (Hi & Hbefore).
  destruct (String.prefix "<code" (string_drop j html)) eqn:Hp; [|reflexivity].
  exfalso. apply (code_match_before_a_match (string_drop j html) m g (i - j) Hp); [lia | |].
  - rewrite <- string_drop_drop. replace (j + (i - j)) with i by lia. exact Hi.
  - apply Hbefore. exact Hj.
Qed.

(** ** Base64 *)

From Stdlib Require Import ZArith ZifyNat.

(** Division and remainder by a constant, for [lia]. *)
#[local] Ltac Zify.zify_post_hook ::= Z.to_euclidean_division_equations.

Lemma string_ind3 (P : string -> Prop) :
  P EmptyString ->
  (forall a, P (String a EmptyString)) ->
  (forall a b, P (String a (String b EmptyString))) ->
  (forall a b c rest, P rest -> P (String a (String b (String c rest)))) ->
  forall s, P s.
Proof.
  intros H0 H1 H2 H3 s.
  enough (H : P s /\ (forall a, P (String a s)) /\ forall a b, P (String a (String b s)))
    by apply H.
  induction s as [|c s (IH0 & IH1 & IH2)].
  - auto.
  - split; [apply IH1|]. split; [intros a; apply IH2|].
    intros a b. apply H3. exact IH0.
Qed.

Lemma base64_digits_checked :
  forallb
    (fun n =>
       match Scenario.base64_value (base64_digit n) with
       | Some m => (m =? n)%nat && negb (base64_digit n =? "=")%char
       | None => false
       end)
    (seq 0 64)
  = true.
Proof. vm_compute. reflexivity. Qed.

Lemma base64_digit_value (n : nat) :
  n < 64 ->
  Scenario.base64_value (base64_digit n) = Some n /\ base64_digit n <> "="%char.
Proof.
  intros H. pose proof base64_digits_checked as C.
  rewrite forallb_forall in C. specialize (C n).
  assert (Hin : In n (seq 0 64)) by (apply in_seq; lia).
  specialize (C Hin).
  destruct (Scenario.base64_value (base64_digit n)) as [m|]; [|discriminate C].
  apply andb_true_iff in C. destruct C as (Hm & Hne).
  apply Nat.eqb_eq in Hm. subst m. split; [reflexivity|].
  intros F. rewrite F in Hne. discriminate Hne.
Qed.

Lemma base64_values_digit (n : nat) (rest : string) :
  n < 64 ->
  Scenario.base64_values (String (base64_digit n) rest) = n :: Scenario.base64_values rest.
Proof.
  intros H. destruct (base64_digit_value n H) as (Hv & Hne).
  cbn [Scenario.base64_values].
  destruct (Ascii.eqb_spec (base64_digit n) "=") as [F|_]; [contradiction|].
  now rewrite Hv.
Qed.

Lemma base64_values_padding (rest : string) :
  Scenario.base64_values (String "=" rest) = [].
Proof. reflexivity. Qed.

Lemma ascii_of_nat_eq (a : ascii) (n : nat) : n = nat_of_ascii a -> ascii_of_nat n = a.
Proof. intros ->. apply ascii_nat_embedding. Qed.

(** A standard decoder gives back the bytes that were encoded: the base64
    text determines the bytes, not the JavaScript string they came from when
    that string is ill-formed. *)
Lemma base64_round_trip (s : string) : Scenario.decode_base64 (base64_encode s) = s.
Proof.
  unfold Scenario.decode_base64.
  induction s as [|a|a b|a b c rest IH] using string_ind3.
  - reflexivity.
  - pose proof (nat_ascii_bounded a) as Ha.
    cbn [base64_encode]. cbv zeta.
    rewrite !base64_values_digit by lia. rewrite base64_values_padding.
    cbn [Scenario.bytes_of_values].
    f_equal. apply ascii_of_nat_eq. lia.
  - pose proof (nat_ascii_bounded a) as Ha. pose proof (nat_ascii_bounded b) as Hb.
    cbn [base64_encode]. cbv zeta.
    rewrite !base64_values_digit by lia. rewrite base64_values_padding.
    cbn [Scenario.bytes_of_values].
    f_equal; [|f_equal]; apply ascii_of_nat_eq; lia.
  - pose proof (nat_ascii_bounded a) as Ha. pose proof (nat_ascii_bounded b) as Hb.
    pose proof (nat_ascii_bounded c) as Hc.
    cbn [base64_encode]. cbv zeta.
    rewrite !base64_values_digit by lia.
    cbn [Scenario.bytes_of_values]. rewrite IH.
    f_equal; [|f_equal; [|f_equal]]; apply ascii_of_nat_eq; lia.
Qed.

Lemma some_eq {A : Type} (x y : A) : Some x = Some y -> x = y.
Proof. now intros [= ->]. Qed.

(** X15. The base64 text of a content of [n] bytes has [4 * ceil(n / 3)]
    characters, each a digit of the base64 alphabet or the padding [=]. *)
Theorem base64_encode_is_padded_to_groups_of_four (bytes : string) :
  String.length (base64_encode bytes) = 4 * ((String.length bytes + 2) / 3)
  /\ forall (k : nat) (c : ascii),
      String.get k (base64_encode bytes) = Some c ->
      c = "="%char \/ exists n, n < 64 /\ c = base64_digit n.
Proof.
  induction bytes as [|a|a b|a b c rest (IHlen & IHchars)] using string_ind3.
  - split; [reflexivity|]. intros k c H. destruct k; discriminate H.
  - pose proof (nat_ascii_bounded a) as Ha. split; [reflexivity|].
    cbn [base64_encode]. cbv zeta. intros k c H.
    destruct k as [|[|[|[|k]]]]; cbn [String.get] in H; try discriminate H;
      apply some_eq in H; subst c;
      solve [now left | right; eexists; split; [|reflexivity]; lia].
  - pose proof (nat_ascii_bounded a) as Ha. pose proof (nat_ascii_bounded b) as Hb.
    split; [reflexivity|].
    cbn [base64_encode]. cbv zeta. intros k c H.
    destruct k as [|[|[|[|k]]]]; cbn [String.get] in H; try discriminate H;
      apply some_eq in H; subst c;
      solve [now left | right; eexists; split; [|reflexivity]; lia].
  - pose proof (nat_ascii_bounded a) as Ha. pose proof (nat_ascii_bounded b) as Hb.
    pose proof (nat_ascii_bounded c) as Hc.
    split.
    + cbn [base64_encode String.length]. cbv zeta. cbn [String.length]. rewrite IHlen. lia.
    + cbn [base64_encode]. cbv zeta. intros k x H.
      destruct k as [|[|[|[|k]]]]; cbn [String.get] in H;
        [ apply some_eq in H; subst x; right; eexists; split; [|reflexivity]; lia ..
        | exact (IHchars k x H) ].
Qed.


(** ** The resolver and the code element *)

Section FurtherResolver.

Context {collaborators : Collaborators}.

(** X14. The resolver succeeds on a fetched document exactly when the
    document holds a code element: the text [<code], later a [>], later a
    [</code>]. *)
Theorem resolveContent_succeeds_exactly_on_a_code_element
    (url : string) (w : World) (html : string) :
  web (calls w) url = Returned html ->
  (exists text : string, fst (resolveContent None (Some url) w) = Returned text)
  <-> exists a b c d : string, html = a ++ "<code" ++ b ++ ">" ++ c ++ "</code>" ++ d.
Proof.
  intros W. unfold resolveContent. rewrite fetch_text_bind, W. split.
  - intros (text & H).
    destruct (String_match html) as [[[i m] g]|] eqn:M; [|discriminate H].
    destruct (String_match_sound _ _ _ _ M)
      as (pre & attrs & post & -> & _ & -> & _).
    exists pre, attrs, g, post. now rewrite !string_app_assoc.
  - intros (a & b & c & d & ->).
    pose proof (String_match_complete a b c d) as M.
    destruct (String_match _) as [[[i m] g]|]; [|contradiction].
    now eexists.
Qed.

End FurtherResolver.

(** * The further scenarios, run *)

(** X1 on the sample repository, the tree creation answered with [null]. *)
Lemma pushFiles_stops_when_the_tree_does_not_parse :
  fst (@pushFiles Cases.garbled_hub "o" "r" "main" Scenario.edits "msg" Scenario.start)
  = Thrown (ZodError "GitHubTreeSchema")
  /\ List.length [Scenario.ReadHead; Scenario.BuildTree] = 2.
Proof.
  exact (pushFiles_stops_at_the_first_invalid_answer (collaborators := Cases.garbled_hub)
           "o" "r" "main" Scenario.edits "msg" Scenario.start 1
           (api "o" "r" "/git/trees")
           (mkOptions (Some POST)
              (Some (JsObject [("tree", JsArray (map blob_entry Scenario.edits));
                               ("base_tree", JsString "c0")])))
           JsNull "GitHubTreeSchema" eq_refl eq_refl eq_refl).
Defined.

(** X2 on the sample repository: the update asks for the commit created. *)
Lemma pushFiles_updates_the_sample_branch_to_its_commit :
  exists commit : GitHubCommit,
    Scenario.UpdateRef
    = GithubCall (api "o" "r" ("/git/refs/heads/" ++ "main"))
        (mkOptions (Some PATCH)
           (Some (JsObject [("sha", JsString (commit_sha commit)); ("force", JsBool true)]))).
Proof.
  destruct (pushFiles_updates_the_reference_only_to_its_own_commit
              (collaborators := Scenario.hub)
              "o" "r" "main" Scenario.edits "msg" Scenario.start Scenario.UpdateRef
              (or_intror (or_intror (or_intror (or_introl eq_refl)))) eq_refl)
    as (r0 & t1 & k1 & head & tree & commit & _ & _ & _ & _ & _ & _ & Hc & _).
  exists commit. exact Hc.
Defined.

(** X5 on the sample repository: the file read keeps its [sha]. *)
Lemma getFileContents_keeps_the_sha_of_the_sample_file :
  exists parsed : GitHubFileContent,
    "f1" = file_sha parsed /\ "a.txt" = file_path parsed.
Proof.
  destruct (getFileContents_keeps_the_sha_and_the_path (collaborators := Scenario.hub_with_file)
              "o" "r" "a.txt" (Some "main") Scenario.start (mkFile "f1" "hi" "a.txt") eq_refl)
    as (response & parsed & _ & _ & Hsha & Hpath & _).
  exists parsed. split; [exact Hsha | exact Hpath].
Defined.

(** X7 on the page without a block: nothing is written. *)
Lemma createOrUpdateFile_writes_nothing_from_a_page_without_block :
  fst (@createOrUpdateFile Scenario.hub "o" "r" "a.txt" None (Some "https://example.org/none")
         "msg" "main" None Scenario.start)
  = Thrown Cases.missing_block.
Proof.
  exact (proj1 (createOrUpdateFile_issues_no_request_without_content
                  (collaborators := Scenario.hub)
                  "o" "r" "a.txt" None (Some "https://example.org/none") "msg" "main" None
                  Scenario.start Cases.missing_block eq_refl)).
Defined.

(** X8 on the sample repository: the call ends with the write. *)
Lemma createOrUpdateFile_ends_with_the_write_on_the_sample :
  exists (history : list Call) (options : RequestOptions),
    calls (snd (@createOrUpdateFile Scenario.hub "o" "r" "a.txt" (Some "X") None "msg" "main"
                  None Scenario.start))
    = (history ++ [GithubCall (api "o" "r" ("/contents/" ++ "a.txt")) options])%list
    /\ method options = Some PUT.
Proof.
  destruct (createOrUpdateFile_returns_the_outcome_of_the_write (collaborators := Scenario.hub)
              "o" "r" "a.txt" (Some "X") None "msg" "main" None
              Scenario.start Scenario.start "X" eq_refl)
    as (history & options & Hcalls & Hmethod & _).
  exists history, options. split; [exact Hcalls | exact Hmethod].
Defined.

(** X9 on the repository in which the path is a directory. *)
Lemma createOrUpdateFile_writes_without_sha_over_a_directory :
  @createOrUpdateFile Cases.hub_with_directory "o" "r" "a.txt" (Some "X") None "msg" "main"
    None Scenario.start
  = (Returned (Scenario.written "w1"),
     mkWorld [Scenario.PreRead; Scenario.PutFile []] []).
Proof.
  exact (createOrUpdateFile_takes_no_sha_from_a_directory
           (collaborators := Cases.hub_with_directory)
           "o" "r" "a.txt" (Some "X") None "msg" "main"
           Scenario.start Scenario.start "X" [] eq_refl eq_refl).
Defined.

(** X12 on the page with one block. *)
Lemma String_match_finds_the_block_of_the_sample_page :
  exists pre attrs post : string,
    Scenario.one_block = pre ++ "<code class='x'>1 &lt; 2</code>" ++ post
    /\ String.length pre = 6
    /\ "<code class='x'>1 &lt; 2</code>" = "<code" ++ attrs ++ ">" ++ "1 &lt; 2" ++ "</code>"
    /\ ~ occurs ">" attrs
    /\ ~ occurs "</code>" "1 &lt; 2".
Proof.
  exact (String_match_finds_a_code_element Scenario.one_block 6
           "<code class='x'>1 &lt; 2</code>" "1 &lt; 2" eq_refl).
Defined.

(** X14 on the page with one block. *)
Lemma resolveContent_succeeds_on_the_sample_page :
  exists text : string,
    fst (@resolveContent Scenario.hub None (Some "https://example.org/one") Scenario.start)
    = Returned text.
Proof.
  apply (proj2 (resolveContent_succeeds_exactly_on_a_code_element
                  (collaborators := Scenario.hub)
                  "https://example.org/one" Scenario.start Scenario.one_block eq_refl)).
  exists "<html>", " class='x'", "1 &lt; 2", "</html>". reflexivity.
Defined.


(** X13 on the page with one block: no [<code] at index 2. *)
Lemma String_match_skips_no_opening_tag_on_the_sample_page :
  String.prefix "<code" (string_drop 2 Scenario.one_block) = false.
Proof.
  refine (String_match_starts_at_the_first_opening_tag Scenario.one_block 6
            "<code class='x'>1 &lt; 2</code>" "1 &lt; 2" eq_refl 2 _).
  lia.
Defined.
